(** * microscope-cam-helper: camera services and capture gallery

    A shallow embedding of the two camera services
    ([docker/docker-microscope] and [docker/csi-camera]) and of their Flask
    handlers, together with the parts of the Python runtime they call into
    (pathlib, os, zipfile, cv2, subprocess), and the properties of the
    device lifecycle, the MJPEG stream and the capture store. *)

From Stdlib Require Import Ascii String.
From stdpp Require Import base option list strings gmap fin_maps sorting.

(* ===================================================================== *)
(** ** Python values shared by all modules *)
(* ===================================================================== *)

(** [bytes] objects and [str] objects are both sequences of 8-bit
    characters here. *)
Abbreviation bytes := string (only parsing).

Definition CR : ascii := ascii_of_nat 13.
Definition LF : ascii := ascii_of_nat 10.
Definition NUL : ascii := ascii_of_nat 0.
Definition CRLF : string := String CR (String LF EmptyString).

(** The exception classes that reach the handlers. *)
Inductive exn :=
  | ValueError
  | RuntimeError
  | OSError
  | FileNotFoundError
  | CalledProcessError
  | TimeoutExpired.

(** A Python call either returns a value or raises. *)
Inductive result (A : Type) :=
  | Ok (a : A)
  | Raise (e : exn).
Arguments Ok {A} a.
Arguments Raise {A} e.

(** Code that runs against a state [S] (the object it is a method of, the
    operating system) and may raise: the state reached is kept in both
    cases, as side effects made before a [raise] are. *)
Definition M (S A : Type) : Type := S -> S * result A.

Definition ret {S A} (a : A) : M S A := fun s => (s, Ok a).

Definition raise {S A} (e : exn) : M S A := fun s => (s, Raise e).

Definition bind {S A B} (m : M S A) (k : A -> M S B) : M S B :=
  fun s =>
    match m s with
    | (s', Ok a) => k a s'
    | (s', Raise e) => (s', Raise e)
    end.

(** [try: m except Exception as e: h e] *)
Definition try_except {S A} (m : M S A) (h : exn -> M S A) : M S A :=
  fun s =>
    match m s with
    | (s', Raise e) => h e s'
    | r => r
    end.

Definition get {S} : M S S := fun s => (s, Ok s).

Definition modify {S} (f : S -> S) : M S unit := fun s => (f s, Ok tt).

Notation "'let*' x ':=' m 'in' k" := (bind m (fun x => k))
  (at level 10, x pattern, m at level 100, k at level 200).
Notation "m ';;' k" := (bind m (fun _ => k))
  (at level 100, k at level 200, right associativity).

(* ===================================================================== *)
(** ** The file system seen through [os] *)
(* ===================================================================== *)

Module Posix.

(** An absolute path split in components; [[]] is the root directory. *)
Abbreviation path := (list string) (only parsing).

(** A directory tree.  A directory records whether entries may be added
    to or removed from it. *)
#[warnings="-register-all"]
Inductive node :=
  | File (data : bytes)
  | Dir (writable : bool) (entries : gmap string node)
  | Link (target : string).

(** What [os.lstat] tells about a node. *)
Inductive kind :=
  | KFile (data : bytes)
  | KDir (writable : bool)
  | KLink (target : string).

Definition kind_of (n : node) : kind :=
  match n with
  | File d => KFile d
  | Dir w _ => KDir w
  | Link t => KLink t
  end.

(** The node reached by descending along [p], not following links. *)
Fixpoint descend (n : node) (p : path) : option node :=
  match p with
  | [] => Some n
  | c :: p' =>
      match n with
      | Dir _ es =>
          match es !! c with
          | Some n' => descend n' p'
          | None => None
          end
      | _ => None
      end
  end.

Definition lstat (root : node) (p : path) : option kind :=
  kind_of <$> descend root p.

Definition readlink (root : node) (p : path) : option string :=
  match lstat root p with
  | Some (KLink t) => Some t
  | _ => None
  end.

(** [os.remove]: unlinks a file or a symbolic link; [None] stands for the
    [OSError] raised on a directory, a missing entry or a parent that
    does not allow it. *)
Fixpoint unlink (n : node) (p : path) : option node :=
  match p, n with
  | c :: p', Dir w es =>
      match es !! c with
      | None => None
      | Some n' =>
          match p' with
          | [] =>
              match n' with
              | Dir _ _ => None
              | _ => if w then Some (Dir w (delete c es)) else None
              end
          | _ :: _ =>
              match unlink n' p' with
              | Some n'' => Some (Dir w (<[c := n'']> es))
              | None => None
              end
          end
      end
  | _, _ => None
  end.

(** [open(p, 'wb')] followed by a complete write, on a path without
    symbolic links: creates the entry or replaces the contents of a file. *)
Fixpoint store (n : node) (p : path) (d : bytes) : option node :=
  match p, n with
  | c :: p', Dir w es =>
      match p' with
      | [] =>
          match es !! c with
          | Some (File _) => Some (Dir w (<[c := File d]> es))
          | Some _ => None
          | None => if w then Some (Dir w (<[c := File d]> es)) else None
          end
      | _ :: _ =>
          match es !! c with
          | Some n' =>
              match store n' p' d with
              | Some n'' => Some (Dir w (<[c := n'']> es))
              | None => None
              end
          | None => None
          end
      end
  | _, _ => None
  end.

(** [os.mkdir] on a path without symbolic links whose last component does
    not exist yet. *)
Fixpoint create_dir (n : node) (p : path) : option node :=
  match p, n with
  | c :: p', Dir w es =>
      match p' with
      | [] =>
          match es !! c with
          | Some _ => None
          | None => if w then Some (Dir w (<[c := Dir true ∅]> es)) else None
          end
      | _ :: _ =>
          match es !! c with
          | Some n' =>
              match create_dir n' p' with
              | Some n'' => Some (Dir w (<[c := n'']> es))
              | None => None
              end
          | None => None
          end
      end
  | _, _ => None
  end.

(** [str.split(sep)] *)
Fixpoint split (sep : ascii) (s : string) : list string :=
  match s with
  | EmptyString => [EmptyString]
  | String c s' =>
      if Ascii.eqb c sep then EmptyString :: split sep s'
      else match split sep s' with
           | w :: ws => String c w :: ws
           | [] => [String c EmptyString]
           end
  end.

(** [posixpath.isabs] *)
Definition isabs (s : string) : bool :=
  match s with
  | String c _ => Ascii.eqb c "/"
  | EmptyString => false
  end.

(** The loop of [posixpath._joinrealpath] in its non-strict mode: [cur] is
    the resolved prefix, [rest] the components still to be looked at;
    [follow dir target] resolves the target of a link found in [dir].  A
    component that cannot be examined (missing, or below a file) is kept
    as it is written. *)
Fixpoint walk (follow : path -> string -> option path) (root : node)
    (cur : path) (rest : list string) : option path :=
  match rest with
  | [] => Some cur
  | name :: rest' =>
      if bool_decide (name = "" ∨ name = ".") then walk follow root cur rest'
      else if bool_decide (name = "..") then
        walk follow root (removelast cur) rest'
      else
        match readlink root (cur ++ [name]) with
        | Some target =>
            match follow cur target with
            | Some cur' => walk follow root cur' rest'
            | None => None
            end
        | None => walk follow root (cur ++ [name]) rest'
        end
  end.

(** [posixpath._joinrealpath(path, rest)].  The nesting of link targets
    is bounded: [None] stands for a symbolic-link loop, and a chain nested
    deeper than the bound counts as one. *)
Fixpoint joinrealpath (depth : nat) (root : node) (cur : path)
    (rest : string) : option path :=
  match depth with
  | O => None
  | S depth' =>
      walk (joinrealpath depth' root) root
        (if isabs rest then [] else cur) (split "/" rest)
  end.

Definition SYMLOOP_MAX : nat := 40.

(** [os.path.realpath] of the absolute path with components [p]. *)
Definition realpath (root : node) (p : path) : option path :=
  walk (joinrealpath SYMLOOP_MAX root) root [] p.

(** [open(p, 'wb')] and a complete write: the kernel follows the links on
    the way. *)
Definition open_write (root : node) (p : path) (d : bytes) : option node :=
  match realpath root p with
  | Some q => store root q d
  | None => None
  end.

(** [posixpath.normpath] *)
Definition normpath_step (initial_slashes : nat) (new_comps : list string)
    (comp : string) : list string :=
  if bool_decide (comp = "" ∨ comp = ".") then new_comps
  else if bool_decide (comp ≠ ".."
                       ∨ (initial_slashes = 0 ∧ new_comps = [])
                       ∨ last new_comps = Some "..")
  then new_comps ++ [comp]
  else removelast new_comps.

Definition normpath (p : string) : string :=
  if bool_decide (p = "") then "."
  else
    let initial_slashes :=
      if isabs p then
        if String.prefix "//" p && negb (String.prefix "///" p) then 2 else 1
      else 0 in
    let new_comps :=
      fold_left (normpath_step initial_slashes) (split "/" p) [] in
    let s := String.concat "/" new_comps in
    let s := String.concat "" (replicate initial_slashes "/") +:+ s in
    if bool_decide (s = "") then "." else s.

(** *** Resolution by the kernel *)

(** The links the kernel follows while it resolves one path. *)
Definition MAXSYMLINKS : nat := 40.

(** The path walk of the system calls that follow links ([stat],
    [scandir]).  Unlike [realpath] above it fails at a component that is
    missing or that lies below something other than a directory, and it
    bounds the links followed on the whole way.  [cur] is the directory
    reached so far, [rest] the components still to come; the target of a
    link is walked before what came after the link. *)
Fixpoint lookup (budget : nat) (root : node) {struct budget}
    : path -> list string -> option path :=
  fix go (cur : path) (rest : list string) {struct rest} : option path :=
    match rest with
    | [] => Some cur
    | name :: rest' =>
        match lstat root cur with
        | Some (KDir _) =>
            if bool_decide (name = "" ∨ name = ".") then go cur rest'
            else if bool_decide (name = "..") then go (removelast cur) rest'
            else
              match lstat root (cur ++ [name]) with
              | Some (KLink target) =>
                  match budget with
                  | O => None
                  | S budget' =>
                      if bool_decide (target = "") then None
                      else
                        lookup budget' root
                          (if isabs target then [] else cur)
                          (split "/" target ++ rest')
                  end
              | Some _ => go (cur ++ [name]) rest'
              | None => None
              end
        | _ => None
        end
    end.

(** Where the absolute path with components [p] leads. *)
Definition namei (root : node) (p : path) : option path :=
  lookup MAXSYMLINKS root [] p.

(** [os.stat], which follows links; [None] stands for its [OSError]. *)
Definition stat (root : node) (p : path) : option kind :=
  namei root p ≫= lstat root.

(** The names [os.scandir] gives, in an order of its own. *)
Definition scandir (root : node) (p : path) : option (list string) :=
  match namei root p ≫= descend root with
  | Some (Dir _ es) => Some ((map_to_list es).*1)
  | _ => None
  end.

End Posix.

(* ===================================================================== *)
(** ** pathlib *)
(* ===================================================================== *)

Module Pathlib.
Import Posix.

(** The components pathlib keeps of a string: empty ones and [.] go. *)
Definition parts (s : string) : list string :=
  filter (fun c => c ≠ "" ∧ c ≠ ".") (split "/" s).

(** [base / other] for an absolute [base]. *)
Definition joinpath (base : path) (other : string) : path :=
  if isabs other then parts other else base ++ parts other.

Fixpoint has_nul (s : string) : bool :=
  match s with
  | EmptyString => false
  | String c s' => Ascii.eqb c NUL || has_nul s'
  end.

(** [Path.resolve()], non-strict.  A component with an embedded null byte
    makes [os.lstat] raise [ValueError]; a symbolic-link loop is reported
    as [RuntimeError] (Python up to 3.12; later versions give the path
    back unresolved). *)
Definition resolve (root : node) (p : path) : result path :=
  if existsb has_nul p then Raise ValueError
  else
    match realpath root p with
    | Some q => Ok q
    | None => Raise RuntimeError
    end.

(** [p.is_relative_to(base)] compares components. *)
Definition is_relative_to (p base : path) : bool :=
  bool_decide (base `prefix_of` p).

(** [Path.exists()], called on the result of [resolve] only, which has no
    symbolic link among its components, so that [stat] is [lstat]. *)
Definition exists_ (root : node) (p : path) : bool :=
  bool_decide (is_Some (lstat root p)).

(** [Path.mkdir(exist_ok=True)]: an existing directory is accepted, also
    through a link; [FileNotFoundError] when the parent is missing, another
    [OSError] for the other failures. *)
Definition mkdir_exist_ok (p : path) : M node unit :=
  fun root =>
    match realpath root (removelast p) with
    | None => (root, Raise OSError)
    | Some parent =>
        let q := parent ++ [default "" (last p)] in
        match lstat root q with
        | Some (KDir _) => (root, Ok tt)
        | Some (KFile _) => (root, Raise OSError)
        | Some (KLink _) =>
            match realpath root q ≫= lstat root with
            | Some (KDir _) => (root, Ok tt)
            | _ => (root, Raise OSError)
            end
        | None =>
            match create_dir root q with
            | Some r => (r, Ok tt)
            | None =>
                match lstat root parent with
                | Some _ => (root, Raise OSError)
                | None => (root, Raise FileNotFoundError)
                end
            end
        end
    end.

(** [str.rfind('.')] *)
Fixpoint rfind_dot (s : string) : option nat :=
  match s with
  | EmptyString => None
  | String c s' =>
      match rfind_dot s' with
      | Some i => Some (S i)
      | None => if Ascii.eqb c "." then Some 0 else None
      end
  end.

(** [PurePath.name] and [PurePath.suffix] *)
Definition name (p : path) : string := default "" (last p).

Definition suffix (p : path) : string :=
  let name := name p in
  match rfind_dot name with
  | Some i =>
      if bool_decide (0 < i < String.length name - 1)
      then String.substring i (String.length name - i) name
      else ""
  | None => ""
  end.

(** [Path.exists()] and [Path.is_dir()] on any path: what [os.stat]
    finds; a name with an embedded null byte counts as missing. *)
Definition exists_stat (root : node) (p : path) : bool :=
  negb (existsb has_nul p) && bool_decide (is_Some (stat root p)).

Definition is_dir (root : node) (p : path) : bool :=
  negb (existsb has_nul p)
  && match stat root p with
     | Some (KDir _) => true
     | _ => false
     end.

(** [s.endswith(ext)] *)
Fixpoint endswith (ext s : string) : bool :=
  bool_decide (s = ext)
  || match s with
     | String _ s' => endswith ext s'
     | EmptyString => false
     end.

(** [p.glob('*' + ext)]: the entries of the directory [p] whose name ends
    in [ext], whatever they are, hidden ones included, in the order
    [scandir] gives them; nothing when [p] is not a directory. *)
Definition glob_star (root : node) (p : path) (ext : string) : list path :=
  if is_dir root p then
    match scandir root p with
    | Some names =>
        (fun n => p ++ [n]) <$> filter (fun n => endswith ext n = true) names
    | None => []
    end
  else [].

(** The order of [sorted(..., reverse=True)] on strings, taken byte by
    byte, which is the order of Python on names that are valid UTF-8. *)
Definition descending (a b : string) : Prop := String.leb b a = true.

#[global] Instance descending_dec : RelDecision descending.
Proof. intros a b. unfold descending. apply _. Defined.

Definition sorted_reverse (l : list string) : list string :=
  merge_sort descending l.

End Pathlib.


(* ===================================================================== *)
(** ** zipfile, Flask and cv2 *)
(* ===================================================================== *)

Module Zipfile.
Import Posix.

(** A member of an archive: its name and its uncompressed contents
    ([ZIP_DEFLATED] is lossless). *)
Record ZipInfo := { filename : string; contents : bytes }.

Fixpoint lstrip_slashes (s : string) : string :=
  match s with
  | String c s' => if Ascii.eqb c "/" then lstrip_slashes s' else s
  | EmptyString => EmptyString
  end.

(** The member name [ZipInfo.from_file] derives from [arcname]. *)
Definition arcname_of (arcname : string) : string :=
  lstrip_slashes (normpath arcname).

(** [ZipFile.write(filepath, arcname)] on a path without symbolic links:
    a file is stored with its contents, a directory as an empty member
    whose name ends in a slash. *)
Definition write (root : node) (zf : list ZipInfo) (filepath : path)
    (arcname : string) : result (list ZipInfo) :=
  match lstat root filepath with
  | Some (KFile d) =>
      Ok (zf ++ [{| filename := arcname_of arcname; contents := d |}])
  | Some (KDir _) =>
      Ok (zf ++ [{| filename := arcname_of arcname +:+ "/"; contents := "" |}])
  | _ => Raise FileNotFoundError
  end.

End Zipfile.

Module Flask.

#[warnings="-register-all"]
Inductive json :=
  | JStr (s : string)
  | JNum (n : nat)
  | JBool (b : bool)
  | JObj (fields : list (string * json)).

Inductive body :=
  | Text (s : string)
  | Json (j : json)
  | Bytes (b : bytes)
  | Archive (members : list Zipfile.ZipInfo)
  | Chunks (chunks : list bytes)
  | SendFromDirectory (directory : string) (filename : string).

Record Response := {
  status : nat;
  mimetype : string;
  headers : list (string * string);
  payload : body
}.

(** [jsonify(obj)] and [jsonify(obj), code] *)
Definition jsonify (fields : list (string * json)) (code : nat) : Response :=
  {| status := code; mimetype := "application/json"; headers := [];
     payload := Json (JObj fields) |}.

(** What the client gets from a view function: its response, or the
    response Flask makes of an exception that escapes it. *)
Definition served (r : result Response) : Response :=
  match r with
  | Ok resp => resp
  | Raise _ =>
      {| status := 500; mimetype := "text/html"; headers := [];
         payload := Text "Internal Server Error" |}
  end.

Definition is_server_error (r : Response) : bool :=
  bool_decide (500 ≤ status r < 600).

(** The chunks of a multipart body; a body of another kind has none. *)
Definition multipart_chunks (r : Response) : list bytes :=
  match payload r with
  | Chunks cs => cs
  | _ => []
  end.

End Flask.

(* ===================================================================== *)
(** ** Authentication, the same in both web servers *)
(* ===================================================================== *)

Module Auth.
Import Flask.

(** The module constants [USERNAME] and [PASSWORD], set when the module
    is loaded. *)
Record Credentials := { USERNAME : string; PASSWORD : string }.

(** [request.authorization] of a request that has the header; an
    attribute the header does not give is [None]. *)
Record Authorization := {
  username : option string;
  password : option string
}.

Definition check_auth (c : Credentials) (username password : option string)
    : bool :=
  bool_decide (username = Some (USERNAME c))
  && bool_decide (password = Some (PASSWORD c)).

Definition DQUOTE : ascii := ascii_of_nat 34.

Definition authenticate (realm : string) : Response :=
  {| status := 401; mimetype := "text/html";
     headers :=
       [("WWW-Authenticate",
         "Basic realm=" +:+ String DQUOTE realm +:+ String DQUOTE "")];
     payload := Text "Authentication required" |}.

(** [requires_auth(f)]: the answer of [authenticate()] on the left, what
    the view returns on the right. *)
Definition requires_auth {S A} (c : Credentials) (realm : string)
    (authorization : option Authorization) (f : M S A)
    : M S (Response + A) :=
  match authorization with
  | None => ret (inl (authenticate realm))
  | Some auth =>
      if negb (check_auth c (username auth) (password auth))
      then ret (inl (authenticate realm))
      else let* a := f in ret (inr a)
  end.

End Auth.

(** The part of OpenCV the camera service relies on: the type of frames
    and the JPEG encoder, which may refuse a frame. *)
Class OpenCV := {
  Frame : Type;
  imencode_jpg : Frame -> nat -> option bytes
}.

(* ===================================================================== *)
(** ** docker/docker-microscope *)
(* ===================================================================== *)

Module Microscope.
Import Posix Pathlib Flask.

Section Service.
Context `{OpenCV}.

(** *** The world outside the process *)

(** The video device: whether it can be opened, what the coming
    [read()] calls return, as pairs [(success, frame)] (when the list is
    used up a read fails), and the [cv2.VideoCapture] objects made so far,
    each with whether it holds the device open. *)
Record Hardware := {
  openable : bool;
  feed : list (bool * option Frame);
  handles : list bool
}.

(** Library calls that touch the file system, in the order made. *)
Inductive fs_call :=
  | Resolve (p : path)
  | Exists (p : path)
  | Remove (p : path)
  | ZipWrite (p : path)
  | Mkdir (p : path)
  | Imwrite (p : path).

Record Env := {
  root : node;
  fs_log : list fs_call;
  video : Hardware;
  clock : string;
  environ : gmap string string
}.

Definition set_root (r : node) (e : Env) : Env :=
  {| root := r; fs_log := fs_log e; video := video e; clock := clock e;
     environ := environ e |}.

Definition set_video (v : Hardware) (e : Env) : Env :=
  {| root := root e; fs_log := fs_log e; video := v; clock := clock e;
     environ := environ e |}.

Definition set_feed (answers : list (bool * option Frame)) (e : Env) : Env :=
  set_video {| openable := openable (video e); feed := answers;
               handles := handles (video e) |} e.

Definition set_handles (hs : list bool) (e : Env) : Env :=
  set_video {| openable := openable (video e); feed := feed (video e);
               handles := hs |} e.

Definition log (c : fs_call) : M Env unit :=
  modify (fun e =>
    {| root := root e; fs_log := fs_log e ++ [c]; video := video e;
       clock := clock e; environ := environ e |}).

Definition Path_resolve (p : path) : M Env path :=
  log (Resolve p) ;; fun e => (e, resolve (root e) p).

Definition Path_exists (p : path) : M Env bool :=
  log (Exists p) ;; fun e => (e, Ok (exists_ (root e) p)).

Definition os_remove (p : path) : M Env unit :=
  log (Remove p) ;;
  fun e =>
    match unlink (root e) p with
    | Some r => (set_root r e, Ok tt)
    | None => (e, Raise OSError)
    end.

Definition zip_write (zf : list Zipfile.ZipInfo) (p : path)
    (arcname : string) : M Env (list Zipfile.ZipInfo) :=
  log (ZipWrite p) ;; fun e => (e, Zipfile.write (root e) zf p arcname).

Definition Path_mkdir_exist_ok (p : path) : M Env unit :=
  log (Mkdir p) ;;
  fun e => let '(r, a) := mkdir_exist_ok p (root e) in (set_root r e, a).

(** [cv2.imwrite(str(filepath), frame, [IMWRITE_JPEG_QUALITY, q])]: the
    frame is encoded and the file written; [False] when either fails. *)
Definition imwrite (filepath : path) (frame : Frame) (quality : nat)
    : M Env bool :=
  log (Imwrite filepath) ;;
  fun e =>
    match imencode_jpg frame quality with
    | None => (e, Ok false)
    | Some buffer =>
        match open_write (root e) filepath buffer with
        | Some r => (set_root r e, Ok true)
        | None => (e, Ok false)
        end
    end.

(** *** camera_service.py *)

(** A [cv2.VideoCapture] object is known by its index in [handles]. *)
Record CameraService := {
  device : string;
  width : Z;
  height : Z;
  camera : option nat;
  capture_dir : path
}.

Definition set_camera (c : option nat) (s : CameraService)
    : CameraService :=
  {| device := device s; width := width s; height := height s;
     camera := c; capture_dir := capture_dir s |}.

(** A method runs against [self] and the world. *)
Definition Self : Type := CameraService * Env.

Definition self : M Self CameraService := fun s => (s, Ok (fst s)).

Definition world {A} (m : M Env A) : M Self A :=
  fun s => let '(e, a) := m (snd s) in ((fst s, e), a).

Definition assign_camera (c : option nat) : M Self unit :=
  modify (fun s => (set_camera c (fst s), snd s)).

(** [cv2.VideoCapture(device, cv2.CAP_V4L2)] *)
Definition cv2_VideoCapture (dev : string) : M Env nat :=
  fun e =>
    let v := video e in
    (set_handles (handles v ++ [openable v]) e, Ok (length (handles v))).

(** [camera.isOpened()] *)
Definition isOpened (c : nat) : M Env bool :=
  fun e => (e, Ok (default false (handles (video e) !! c))).

(** [camera.read()]: the next answer of the device when the object is
    open, [(False, None)] otherwise. *)
Definition read (c : nat) : M Env (bool * option Frame) :=
  let* opened := isOpened c in
  if opened : bool then
    fun e =>
      match feed (video e) with
      | r :: rest => (set_feed rest e, Ok r)
      | [] => (e, Ok (false, None))
      end
  else ret (false, None).

(** [camera.release()] *)
Definition release (c : nat) : M Env unit :=
  modify (fun e => set_handles (<[c := false]> (handles (video e))) e).

(** [for i in range(n): self.camera.read(); time.sleep(0.05)] *)
Fixpoint warmup (n : nat) (c : nat) : M Env unit :=
  match n with
  | O => ret tt
  | S n' => read c ;; warmup n' c
  end.

(** The three [camera.set(...)] calls change nothing that is looked at
    later and are left out. *)
Definition start : M Self bool :=
  try_except
    (let* s := self in
     let* c := world (cv2_VideoCapture (device s)) in
     assign_camera (Some c) ;;
     let* opened := world (isOpened c) in
     if negb opened then raise RuntimeError
     else
       world (warmup 3 c) ;;
       let* r := world (read c) in
       match r with
       | (true, Some frame) => ret true
       | _ => raise RuntimeError
       end)
    (fun e => ret false).

Definition read_frame : M Self (option Frame) :=
  let* s := self in
  match camera s with
  | None => ret None
  | Some c =>
      let* opened := world (isOpened c) in
      if negb opened then ret None
      else
        let* r := world (read c) in
        if negb (fst r) then ret None else ret (snd r)
  end.

(** One MJPEG part. *)
Definition part (buffer : bytes) : bytes :=
  ("--frame" +:+ CRLF) +:+ ("Content-Type: image/jpeg" +:+ CRLF +:+ CRLF)
  +:+ buffer +:+ CRLF.

(** The [while True] loop of [generate_stream], for at most [n] turns;
    the chunks yielded are collected in order. *)
Fixpoint generate_stream_loop (n : nat) : M Self (list bytes) :=
  match n with
  | O => ret []
  | S n' =>
      let* frame := read_frame in
      match frame with
      | None => ret []
      | Some f =>
          match imencode_jpg f 85 with
          | None => generate_stream_loop n'
          | Some buffer =>
              let* chunks := generate_stream_loop n' in
              ret (part buffer :: chunks)
          end
      end
  end.

(** The generator run until it returns.  Every turn that does not leave
    the loop takes one answer from the device, so one turn more than the
    answers left is enough. *)
Definition generate_stream : M Self (list bytes) :=
  let* s := self in
  match camera s with
  | None => ret []
  | Some c =>
      let* opened := world (isOpened c) in
      if negb opened then ret []
      else
        let* n := (fun s => (s, Ok (length (feed (video (snd s)))))) in
        generate_stream_loop (S n)
  end.

Definition capture_image : M Self (option path) :=
  let* frame := read_frame in
  match frame with
  | None => ret None
  | Some f =>
      let* timestamp := (fun s => (s, Ok (clock (snd s)))) in
      let filename := "capture_" +:+ timestamp +:+ ".jpg" in
      let* s := self in
      let filepath := joinpath (capture_dir s) filename in
      world (imwrite filepath f 95) ;;
      ret (Some filepath)
  end.

Definition stop : M Self unit :=
  let* s := self in
  match camera s with
  | Some c => world (release c) ;; assign_camera None
  | None => ret tt
  end.

(** *** The process: its objects and the module global *)

Record Process := {
  services : list CameraService;
  _camera_service : option nat;
  env : Env
}.

Definition outside {A} (m : M Env A) : M Process A :=
  fun p =>
    let '(e, a) := m (env p) in
    ({| services := services p; _camera_service := _camera_service p;
        env := e |}, a).

(** [camera.m()] for the object at address [r]. *)
Definition call {A} (r : nat) (m : M Self A) : M Process A :=
  fun p =>
    match services p !! r with
    | Some s =>
        let '((s', e), a) := m (s, env p) in
        ({| services := <[r := s']> (services p);
            _camera_service := _camera_service p; env := e |}, a)
    | None => (p, Raise RuntimeError)
    end.

(** [CameraService(device, width, height)]: the object becomes reachable
    once [__init__] has returned. *)
Definition CameraService_new (dev : string) (w h : Z) : M Process nat :=
  let s := {| device := dev; width := w; height := h; camera := None;
              capture_dir := parts "/app/captures" |} in
  outside (Path_mkdir_exist_ok (capture_dir s)) ;;
  fun p =>
    ({| services := services p ++ [s]; _camera_service := _camera_service p;
        env := env p |}, Ok (length (services p))).

Section Builtins.
(** The builtin [int] on strings; [None] is its [ValueError]. *)
Variable int : string -> option Z.

Definition getenv (key default_ : string) : M Process string :=
  fun p => (p, Ok (default default_ (environ (env p) !! key))).

Definition int_ (s : string) : M Process Z :=
  match int s with
  | Some z => ret z
  | None => raise ValueError
  end.

Definition get_camera_service : M Process nat :=
  let* p := get in
  match _camera_service p with
  | Some r => ret r
  | None =>
      let* dev := getenv "VIDEO_DEVICE" "/dev/video0" in
      let* w := (let* v := getenv "VIDEO_WIDTH" "1280" in int_ v) in
      let* h := (let* v := getenv "VIDEO_HEIGHT" "720" in int_ v) in
      let* r := CameraService_new dev w h in
      modify (fun p =>
        {| services := services p; _camera_service := Some r;
           env := env p |}) ;;
      ret r
  end.

(** *** web_server.py *)

(** The body of a generator response is what the generator yields until
    it returns. *)
Definition stream : M Process Response :=
  let* camera := get_camera_service in
  let* chunks := call camera generate_stream in
  ret {| status := 200;
         mimetype := "multipart/x-mixed-replace; boundary=frame";
         headers := [];
         payload := Chunks chunks |}.

Definition str (p : path) : string := "/" +:+ String.concat "/" p.

(** [camera.camera is not None and camera.camera.isOpened()] *)
Definition camera_ok : M Self bool :=
  let* s := self in
  match camera s with
  | None => ret false
  | Some c => world (isOpened c)
  end.

Definition status_ : M Process Response :=
  let* camera := get_camera_service in
  let* ok := call camera camera_ok in
  ret (jsonify [("camera_ready", JBool ok)] 200).

Definition health : M Process Response :=
  let* camera := get_camera_service in
  let* ok := call camera camera_ok in
  ret (jsonify
         [("status", JStr (if ok : bool then "healthy" else "unhealthy"));
          ("camera", JStr (if ok : bool then "ok" else "error"))]
         (if ok : bool then 200 else 503)).

Definition capture : M Process Response :=
  let* camera := get_camera_service in
  let* filepath := call camera capture_image in
  match filepath with
  | Some fp =>
      ret (jsonify [("status", JStr "ok"); ("filename", JStr (name fp));
                    ("path", JStr (str fp))] 200)
  | None =>
      ret (jsonify [("status", JStr "error");
                    ("message", JStr "Capture failed")] 500)
  end.

(** The beginning of [main()]: [camera = get_camera_service()] and
    [camera.start()], whose answer is not looked at. *)
Definition main_camera : M Process unit :=
  let* camera := get_camera_service in
  call camera start ;;
  ret tt.

End Builtins.

(** The JSON object of a batch request: its [files] entry, when present. *)
Record Request := { files : option (list string) }.

(** [except (ValueError, OSError)]: [FileNotFoundError] is an [OSError]. *)
Definition is_ValueError_or_OSError (e : exn) : bool :=
  match e with
  | ValueError | OSError | FileNotFoundError => true
  | _ => false
  end.

Definition get_capture (filename : string) : M Env Response :=
  let captures_dir := parts "/app/captures" in
  let filepath := joinpath captures_dir filename in
  let* checked :=
    try_except
      (let* filepath := Path_resolve filepath in
       let* base := Path_resolve captures_dir in
       if negb (is_relative_to filepath base)
       then ret (inr (jsonify [("error", JStr "Invalid file path")] 400))
       else ret (inl filepath))
      (fun e =>
         if is_ValueError_or_OSError e
         then ret (inr (jsonify [("error", JStr "Invalid file path")] 400))
         else raise e) in
  match checked with
  | inr response => ret response
  | inl filepath =>
      let* found := Path_exists filepath in
      if negb found || negb (bool_decide (suffix filepath = ".jpg"))
      then ret (jsonify [("error", JStr "File not found")] 404)
      else ret {| status := 200; mimetype := "image/jpeg"; headers := [];
                  payload := SendFromDirectory "/app/captures" filename |}
  end.

(** The [for filename in files] loop of [batch_download].  [is_relative_to]
    does not raise, so that its [try] has nothing to catch. *)
Fixpoint batch_download_loop (captures_dir : path) (files : list string)
    (zip_file : list Zipfile.ZipInfo) : M Env (list Zipfile.ZipInfo) :=
  match files with
  | [] => ret zip_file
  | filename :: files' =>
      let* filepath := Path_resolve (joinpath captures_dir filename) in
      if negb (is_relative_to filepath captures_dir)
      then batch_download_loop captures_dir files' zip_file
      else
        let* found := Path_exists filepath in
        if found && bool_decide (suffix filepath = ".jpg") then
          let* zip_file := zip_write zip_file filepath filename in
          batch_download_loop captures_dir files' zip_file
        else batch_download_loop captures_dir files' zip_file
  end.

Definition batch_download (data : Request) : M Env Response :=
  let files := default [] (files data) in
  if bool_decide (files = []) then
    ret (jsonify [("error", JStr "No files specified")] 400)
  else
    let* captures_dir := Path_resolve (parts "/app/captures") in
    let* zip_buffer := batch_download_loop captures_dir files [] in
    ret {| status := 200; mimetype := "application/zip";
           headers := [("Content-Disposition",
                        "attachment; filename=captures.zip")];
           payload := Archive zip_buffer |}.

(** The [for filename in files] loop of [batch_delete]. *)
Fixpoint batch_delete_loop (captures_dir : path) (files : list string)
    (deleted : nat) : M Env nat :=
  match files with
  | [] => ret deleted
  | filename :: files' =>
      let* filepath := Path_resolve (joinpath captures_dir filename) in
      if negb (is_relative_to filepath captures_dir)
      then batch_delete_loop captures_dir files' deleted
      else
        let* found := Path_exists filepath in
        if found && bool_decide (suffix filepath = ".jpg") then
          let* removed :=
            try_except (os_remove filepath ;; ret true)
                       (fun e => ret false) in
          batch_delete_loop captures_dir files'
            (if removed : bool then S deleted else deleted)
        else batch_delete_loop captures_dir files' deleted
  end.

Definition batch_delete (data : Request) : M Env Response :=
  let files := default [] (files data) in
  if bool_decide (files = []) then
    ret (jsonify [("error", JStr "No files specified")] 400)
  else
    let* captures_dir := Path_resolve (parts "/app/captures") in
    let* deleted := batch_delete_loop captures_dir files 0 in
    ret (jsonify [("deleted", JNum deleted);
                  ("requested", JNum (length files))] 200).

(** [list_captures]: the list [captures] of its answer
    [jsonify({'captures': captures})].  [glob] only looks at the
    directory. *)
Definition list_captures : M Env (list string) :=
  fun e =>
    (e, Ok (sorted_reverse
              (name <$> glob_star (root e) (parts "/app/captures") ".jpg"))).

(** *** The routes *)

Section Routes.
Variable int : string -> option Z.
(** What [render_template_string(HTML_TEMPLATE)] gives. *)
Variable index_html : string.
Variable credentials : Auth.Credentials.

Definition index : M Process Response :=
  ret {| status := 200; mimetype := "text/html"; headers := [];
         payload := Text index_html |}.

(** A request that reached a view: the route with the arguments of the
    view and, for the batch routes, the JSON object sent. *)
Inductive route :=
  | Index
  | Stream
  | Capture
  | Status
  | Health
  | Captures
  | CaptureFile (filename : string)
  | BatchDownload (data : Request)
  | BatchDelete (data : Request).

Definition answer (r : route) : Type :=
  match r with
  | Captures => list string
  | _ => Response
  end.

Definition view (r : route) : M Process (answer r) :=
  match r return M Process (answer r) with
  | Index => index
  | Stream => stream int
  | Capture => capture int
  | Status => status_ int
  | Health => health int
  | Captures => outside list_captures
  | CaptureFile filename => outside (get_capture filename)
  | BatchDownload data => outside (batch_download data)
  | BatchDelete data => outside (batch_delete data)
  end.

(** Every route but [/health] is decorated with [requires_auth]. *)
Definition protected (r : route) : bool :=
  match r with
  | Health => false
  | _ => true
  end.

Definition app (authorization : option Auth.Authorization) (r : route)
    : M Process (Response + answer r) :=
  if protected r
  then Auth.requires_auth credentials "Microscope" authorization (view r)
  else let* a := view r in ret (inr a).

End Routes.

End Service.
End Microscope.

(* ===================================================================== *)
(** ** docker/csi-camera *)
(* ===================================================================== *)

Module CSI.
Import Posix Pathlib Flask.

(** *** The world outside the process *)

(** A child process: whether it is still running, what the coming
    [stdout.read(4096)] calls return (the empty string at end of file, and
    when the list is used up), what it wrote to [stderr], and whether it
    ignores [SIGTERM]. *)
Record Proc := {
  running : bool;
  stdout : list bytes;
  stderr : bytes;
  ignores_sigterm : bool
}.

(** A run of [rpicam-still]: its exit status and what it leaves at the
    output path. *)
Record StillRun := { returncode : nat; output : option bytes }.

(** [rpicam_vid] is the process a [Popen] of [rpicam-vid] gives, observed
    after the start-up delay, and [rpicam_still] the run [subprocess.run]
    gives; [None] when the program cannot be executed. *)
Record Env := {
  root : node;
  table : list Proc;
  rpicam_vid : option Proc;
  rpicam_still : option StillRun;
  clock : string
}.

Definition set_root (r : node) (e : Env) : Env :=
  {| root := r; table := table e; rpicam_vid := rpicam_vid e;
     rpicam_still := rpicam_still e; clock := clock e |}.

Definition set_table (t : list Proc) (e : Env) : Env :=
  {| root := root e; table := t; rpicam_vid := rpicam_vid e;
     rpicam_still := rpicam_still e; clock := clock e |}.

(** [subprocess.Popen(cmd, stdout=PIPE, stderr=PIPE)]: the new process is
    entered in the table and known by its index. *)
Definition Popen : M Env nat :=
  fun e =>
    match rpicam_vid e with
    | Some p => (set_table (table e ++ [p]) e, Ok (length (table e)))
    | None => (e, Raise FileNotFoundError)
    end.

(** [process.poll() is not None] *)
Definition has_exited (pid : nat) : M Env bool :=
  fun e =>
    (e, Ok (match table e !! pid with
            | Some p => negb (running p)
            | None => true
            end)).

Definition halt (p : Proc) : Proc :=
  {| running := false; stdout := stdout p; stderr := stderr p;
     ignores_sigterm := ignores_sigterm p |}.

(** [process.terminate()] *)
Definition terminate (pid : nat) : M Env unit :=
  modify (fun e =>
    set_table
      (alter (fun p => if ignores_sigterm p then p else halt p) pid (table e))
      e).

(** [process.wait(timeout=5)] *)
Definition wait (pid : nat) : M Env unit :=
  let* exited := has_exited pid in
  if exited : bool then ret tt else raise TimeoutExpired.

(** [process.kill()] *)
Definition kill (pid : nat) : M Env unit :=
  modify (fun e => set_table (alter halt pid (table e)) e).

(** [process.stdout.read(4096)] *)
Definition stdout_read (pid : nat) : M Env bytes :=
  fun e =>
    match table e !! pid with
    | Some p =>
        match stdout p with
        | chunk :: rest =>
            (set_table
               (<[pid := {| running := running p; stdout := rest;
                            stderr := stderr p;
                            ignores_sigterm := ignores_sigterm p |}]>
                  (table e)) e,
             Ok chunk)
        | [] => (e, Ok "")
        end
    | None => (e, Ok "")
    end.

(** [subprocess.run(['rpicam-still', '-o', str(filepath), ...],
    check=True)] *)
Definition run_rpicam_still (filepath : path) : M Env unit :=
  fun e =>
    match rpicam_still e with
    | None => (e, Raise FileNotFoundError)
    | Some r =>
        let e' :=
          match output r with
          | Some d =>
              match open_write (root e) filepath d with
              | Some r' => set_root r' e
              | None => e
              end
          | None => e
          end in
        if bool_decide (returncode r = 0) then (e', Ok tt)
        else (e', Raise CalledProcessError)
    end.

(** *** camera_service.py *)

Record CSICameraService := {
  width : Z;
  height : Z;
  fps : Z;
  process : option nat;
  capture_dir : path
}.

Definition set_process (p : option nat) (s : CSICameraService)
    : CSICameraService :=
  {| width := width s; height := height s; fps := fps s; process := p;
     capture_dir := capture_dir s |}.

Definition Self : Type := CSICameraService * Env.

Definition self : M Self CSICameraService := fun s => (s, Ok (fst s)).

Definition world {A} (m : M Env A) : M Self A :=
  fun s => let '(e, a) := m (snd s) in ((fst s, e), a).

Definition assign_process (p : option nat) : M Self unit :=
  modify (fun s => (set_process p (fst s), snd s)).

Definition start : M Self bool :=
  try_except
    (let* pid := world Popen in
     assign_process (Some pid) ;;
     (* time.sleep(1) *)
     let* exited := world (has_exited pid) in
     if exited : bool then raise RuntimeError else ret true)
    (fun e => ret false).

(** The [while True] loop of [generate_stream], for at most [n] turns. *)
Fixpoint generate_stream_loop (pid : nat) (n : nat) : M Self (list bytes) :=
  match n with
  | O => ret []
  | S n' =>
      let* chunk := world (stdout_read pid) in
      if bool_decide (chunk = "") then ret []
      else
        let* chunks := generate_stream_loop pid n' in
        ret (chunk :: chunks)
  end.

Definition pending (pid : nat) (e : Env) : nat :=
  match table e !! pid with
  | Some p => length (stdout p)
  | None => 0
  end.

(** The generator run until it returns: a turn that does not leave the
    loop takes one answer from the pipe.  Nothing in the loop raises, so
    its [try] has nothing to catch. *)
Definition generate_stream : M Self (list bytes) :=
  let* s := self in
  match process s with
  | None => ret []
  | Some pid =>
      let* n := (fun s => (s, Ok (pending pid (snd s)))) in
      generate_stream_loop pid (S n)
  end.

Definition capture_image : M Self (option path) :=
  let* timestamp := (fun s => (s, Ok (clock (snd s)))) in
  let filename := "csi_capture_" +:+ timestamp +:+ ".jpg" in
  let* s := self in
  let filepath := joinpath (capture_dir s) filename in
  try_except
    (world (run_rpicam_still filepath) ;; ret (Some filepath))
    (fun e =>
       match e with
       | CalledProcessError => ret None
       | _ => raise e
       end).

Definition stop : M Self unit :=
  let* s := self in
  match process s with
  | Some pid =>
      world (terminate pid) ;;
      try_except (world (wait pid))
        (fun e =>
           match e with
           | TimeoutExpired => world (kill pid)
           | _ => raise e
           end) ;;
      assign_process None
  | None => ret tt
  end.

(** *** The process and its objects *)

Record Process := {
  services : list CSICameraService;
  env : Env
}.

Definition call {A} (r : nat) (m : M Self A) : M Process A :=
  fun p =>
    match services p !! r with
    | Some s =>
        let '((s', e), a) := m (s, env p) in
        ({| services := <[r := s']> (services p); env := e |}, a)
    | None => (p, Raise RuntimeError)
    end.

(** [CSICameraService()], with the default arguments of [__init__]. *)
Definition CSICameraService_new : M Process nat :=
  let s := {| width := 640; height := 480; fps := 30; process := None;
              capture_dir := parts "/app/captures" |} in
  fun p =>
    match mkdir_exist_ok (capture_dir s) (root (env p)) with
    | (r, Ok _) =>
        ({| services := services p ++ [s]; env := set_root r (env p) |},
         Ok (length (services p)))
    | (r, Raise e) =>
        ({| services := services p; env := set_root r (env p) |}, Raise e)
    end.

Definition get_camera_service : M Process nat := CSICameraService_new.

(** *** web_server.py *)

(** [generate()]: the chunks of [camera.generate_stream()], then
    [camera.stop()] in the [finally] clause. *)
Definition generate (camera : nat) : M Process (list bytes) :=
  fun p =>
    match call camera generate_stream p with
    | (p', r) =>
        match call camera stop p' with
        | (p'', Ok _) => (p'', r)
        | (p'', Raise e) => (p'', Raise e)
        end
    end.

Definition stream : M Process Response :=
  let* camera := get_camera_service in
  let* started := call camera start in
  if negb started then
    ret {| status := 500; mimetype := "text/html"; headers := [];
           payload := Text "Camera failed to start" |}
  else
    let* chunks := generate camera in
    ret {| status := 200;
           mimetype := "multipart/x-mixed-replace; boundary=frame";
           headers := [];
           payload := Chunks chunks |}.

(** [capture()]: the answer tells of a capture only when the file is
    there. *)
Definition capture : M Process Response :=
  let* camera := get_camera_service in
  let* filepath := call camera capture_image in
  let* found :=
    (fun p =>
       (p, Ok match filepath with
              | Some fp => exists_stat (root (env p)) fp
              | None => false
              end)) in
  match filepath with
  | Some fp =>
      if found : bool then
        ret (jsonify [("success", JBool true); ("filename", JStr (name fp));
                      ("path", JStr (Microscope.str fp))] 200)
      else ret (jsonify [("success", JBool false)] 500)
  | None => ret (jsonify [("success", JBool false)] 500)
  end.

End CSI.

(* ===================================================================== *)
(** ** Specifications *)
(* ===================================================================== *)

Module Spec.
Import Posix Pathlib.

(** No symbolic link lies on the path [p]. *)
Definition nolink (root : node) (p : path) : Prop :=
  ∀ q, q ≠ [] → q `prefix_of` p → readlink root q = None.

(** The name can be resolved: it has no embedded null byte and meets no
    symbolic-link loop. *)
Definition resolvable (root : node) (captures_dir : path)
    (filename : string) : Prop :=
  ∃ r, resolve root (joinpath captures_dir filename) = Ok r.

(** A requested name is accepted when it resolves to a location inside
    the capture directory that exists and has the extension [.jpg]; the
    result is that location. *)
Definition accepted (root : node) (captures_dir : path)
    (filename : string) : option path :=
  match resolve root (joinpath captures_dir filename) with
  | Ok r =>
      if is_relative_to r captures_dir && exists_ root r
         && bool_decide (suffix r = ".jpg")
      then Some r else None
  | Raise _ => None
  end.

(** An accepted name whose removal succeeds. *)
Definition deletable (root : node) (captures_dir : path)
    (filename : string) : option path :=
  match accepted root captures_dir filename with
  | Some r =>
      match unlink root r with
      | Some _ => Some r
      | None => None
      end
  | None => None
  end.

(** The locations a batch delete is to remove. *)
Definition removed (root : node) (captures_dir : path)
    (files : list string) : gset path :=
  list_to_set (omap (deletable root captures_dir) files).

(** The archive member an accepted name stands for. *)
Definition member (root : node) (captures_dir : path)
    (filename : string) : option Zipfile.ZipInfo :=
  match accepted root captures_dir filename with
  | Some r =>
      match lstat root r with
      | Some (KFile d) =>
          Some {| Zipfile.filename := Zipfile.arcname_of filename;
                  Zipfile.contents := d |}
      | Some (KDir _) =>
          Some {| Zipfile.filename := Zipfile.arcname_of filename +:+ "/";
                  Zipfile.contents := "" |}
      | _ => None
      end
  | None => None
  end.

Fixpoint has_slash (s : string) : bool :=
  match s with
  | EmptyString => false
  | String c s' => Ascii.eqb c "/" || has_slash s'
  end.

(** A file name proper: one component, not a dot name. *)
Definition plain_name (s : string) : Prop :=
  has_slash s = false ∧ s ≠ "" ∧ s ≠ "." ∧ s ≠ "..".




(** The frames [read_frame] gives until it first gives [None], and the
    answers of the device left after that. *)
Fixpoint frames_read `{OpenCV} (answers : list (bool * option Frame))
    : list Frame :=
  match answers with
  | (true, Some f) :: rest => f :: frames_read rest
  | _ => []
  end.

Fixpoint answers_left `{OpenCV} (answers : list (bool * option Frame))
    : list (bool * option Frame) :=
  match answers with
  | (true, Some f) :: rest => answers_left rest
  | _ :: rest => rest
  | [] => []
  end.

(** The chunks of a pipe read until the first empty one. *)
Fixpoint chunks_read (reads : list string) : list string :=
  match reads with
  | chunk :: rest =>
      if bool_decide (chunk = "") then [] else chunk :: chunks_read rest
  | [] => []
  end.

(** [int] on decimal digits. *)
Fixpoint decimal (acc : Z) (s : string) : option Z :=
  match s with
  | EmptyString => Some acc
  | String c s' =>
      let d := nat_of_ascii c in
      if bool_decide (48 ≤ d ≤ 57)
      then decimal (10 * acc + Z.of_nat (d - 48)) s'
      else None
  end.

Definition bench_int (s : string) : option Z :=
  if bool_decide (s = "") then None else decimal 0 s.

(** After three answers of the device are dropped the next one is a
    frame. *)
Definition verified `{OpenCV} (answers : list (bool * option Frame)) : bool :=
  match drop 3 answers with
  | (true, Some _) :: _ => true
  | _ => false
  end.

(** *** The life of a docker-microscope process *)

(** The process as it starts: no service object, the global unset. *)
Definition boot `{OpenCV} (e : Microscope.Env) : Microscope.Process :=
  {| Microscope.services := [];
     Microscope._camera_service := None;
     Microscope.env := e |}.

(** What the code of the process does, one step at a time: a call of
    [get_camera_service], a method run on a service object, or something
    done to the world outside. *)
Inductive step `{OpenCV} (int : string → option Z)
    : Microscope.Process → Microscope.Process → Prop :=
  | step_get p p' r :
      Microscope.get_camera_service int p = (p', r) → step int p p'
  | step_call {A} r (m : M Microscope.Self A) p p' a :
      Microscope.call r m p = (p', a) → step int p p'
  | step_outside {A} (m : M Microscope.Env A) p p' a :
      Microscope.outside m p = (p', a) → step int p p'.

(** The global is unset and there is no service object, or it is set to
    the one service object there is. *)
Definition singleton `{OpenCV} (p : Microscope.Process) : Prop :=
  match Microscope._camera_service p with
  | None => Microscope.services p = []
  | Some r => r = 0 ∧ length (Microscope.services p) = 1
  end.

(** *** A machine to run the handlers on *)

(** Frames are their raw bytes; the encoder refuses the empty frame. *)
Definition bench_cv : OpenCV :=
  {| Frame := string;
     imencode_jpg := fun f quality =>
       if bool_decide (f = "") then None else Some ("JFIF" +:+ f) |}.

Definition bench_tree : node :=
  Dir true
    {[ "app" :=
         Dir true
           {[ "captures" :=
                Dir true
                  {[ "a.jpg" := File "AAAA";
                     "b.jpg" := File "BBBB";
                     "notes.txt" := File "text" ]} ]};
       "etc" := Dir true {[ "passwd" := File "root" ]} ]}.

Definition bench_env : @Microscope.Env bench_cv :=
  {| Microscope.root := bench_tree;
     Microscope.fs_log := [];
     Microscope.video :=
       {| Microscope.openable := true;
          Microscope.feed :=
            map (fun f : string => (true, Some (f : @Frame bench_cv)))
              ["f0"; "f1"; "f2"; "f3"; "f4"];
          Microscope.handles := [] |};
     Microscope.clock := "20240131_120000";
     Microscope.environ := ∅ |}.

(** The same machine with a device that opens but delivers nothing. *)
Definition silent_env : @Microscope.Env bench_cv :=
  Microscope.set_feed [] bench_env.



(** A machine for the CSI service: [rpicam-vid] runs and writes two JPEG
    images to its pipe, [rpicam-still] succeeds. *)
Definition bench_vid : CSI.Proc :=
  {| CSI.running := true;
     CSI.stdout := ["JFIF-image-0"; "JFIF-image-1"];
     CSI.stderr := "";
     CSI.ignores_sigterm := false |}.

Definition csi_env : CSI.Env :=
  {| CSI.root := bench_tree;
     CSI.table := [];
     CSI.rpicam_vid := Some bench_vid;
     CSI.rpicam_still :=
       Some {| CSI.returncode := 0; CSI.output := Some "JFIF-still" |};
     CSI.clock := "20240131_120000" |}.

Definition csi_service : CSI.CSICameraService :=
  {| CSI.width := 640; CSI.height := 480; CSI.fps := 30;
     CSI.process := None; CSI.capture_dir := ["app"; "captures"] |}.

(** The process of docker-microscope with its service made and never
    started. *)
Definition bench_service : Microscope.CameraService :=
  {| Microscope.device := "/dev/video0"; Microscope.width := 1280;
     Microscope.height := 720; Microscope.camera := None;
     Microscope.capture_dir := ["app"; "captures"] |}.

Definition bench_process : @Microscope.Process bench_cv :=
  {| Microscope.services := [bench_service];
     Microscope._camera_service := Some 0;
     Microscope.env := bench_env |}.

Definition csi_process : CSI.Process :=
  {| CSI.services := []; CSI.env := csi_env |}.

(** The machine of docker-microscope at boot, with a video device that
    cannot be opened. *)
Definition dead_process : @Microscope.Process bench_cv :=
  {| Microscope.services := [];
     Microscope._camera_service := None;
     Microscope.env :=
       Microscope.set_video
         {| Microscope.openable := false; Microscope.feed := [];
            Microscope.handles := [] |} bench_env |}.

(** The machine of csi-camera with [rpicam-vid] not installed. *)
Definition csi_off_process : CSI.Process :=
  {| CSI.services := [];
     CSI.env :=
       {| CSI.root := bench_tree; CSI.table := [];
          CSI.rpicam_vid := None; CSI.rpicam_still := None;
          CSI.clock := "20240131_120000" |} |}.

(** *** The requests of a docker-microscope server *)

(** The files of [root'] are those of [root] from which entries with the
    extension [.jpg] inside [captures_dir] may have gone. *)
Definition confined (captures_dir : path) (root root' : node) : Prop :=
  ∀ q, lstat root' q = lstat root q
       ∨ (lstat root' q = None
          ∧ is_relative_to q captures_dir = true ∧ suffix q = ".jpg").

(** The capture directory is a directory proper, as is the one it lies
    in. *)
Definition plain_captures (root : node) : Prop :=
  (∃ w, lstat root ["app"] = Some (KDir w))
  ∧ ∃ w, lstat root ["app"; "captures"] = Some (KDir w).

(** What the camera, the clock and the environment of the process are,
    the files and the answers of the device apart. *)
Definition same_device `{OpenCV} (e e' : Microscope.Env) : Prop :=
  Microscope.handles (Microscope.video e')
    = Microscope.handles (Microscope.video e)
  ∧ Microscope.openable (Microscope.video e')
    = Microscope.openable (Microscope.video e)
  ∧ Microscope.clock e' = Microscope.clock e
  ∧ Microscope.environ e' = Microscope.environ e.

(** The names of the entries of the directory that the path [p] leads
    to, links followed; none when it leads to no directory. *)
Definition entries (root : node) (p : path) : gset string :=
  match namei root p ≫= descend root with
  | Some (Dir _ es) => dom es
  | _ => ∅
  end.

(** [e'] is [e] after calls that changed no file. *)
Definition reads_only `{OpenCV} (e e' : Microscope.Env) : Prop :=
  Microscope.root e' = Microscope.root e
  ∧ Microscope.video e' = Microscope.video e
  ∧ Microscope.clock e' = Microscope.clock e
  ∧ Microscope.environ e' = Microscope.environ e.

(** The server has served one request, with or without credentials. *)
Inductive serves `{OpenCV} (int : string → option Z) (index_html : string)
    (credentials : Auth.Credentials)
    : Microscope.Process → Microscope.Process → Prop :=
  | serves_request authorization r p :
      serves int index_html credentials p
        (Microscope.app int index_html credentials authorization r p).1.

(** The process has its one service object, which holds a capture
    object that is open or not as [opened] tells. *)
Definition started `{OpenCV} (opened : bool) (p : Microscope.Process)
    : Prop :=
  ∃ s c,
    Microscope._camera_service p = Some 0
    ∧ Microscope.services p = [s]
    ∧ Microscope.camera s = Some c
    ∧ Microscope.handles (Microscope.video (Microscope.env p)) !! c
      = Some opened.

(** The credentials of the bench machine. *)
Definition bench_credentials : Auth.Credentials :=
  {| Auth.USERNAME := "admin"; Auth.PASSWORD := "s3cret" |}.

Definition bench_authorization : Auth.Authorization :=
  {| Auth.username := Some "admin"; Auth.password := Some "s3cret" |}.

(** The service of the bench machine with its capture object open. *)
Definition open_service : Microscope.CameraService :=
  Microscope.set_camera (Some 0) bench_service.

Definition open_env : @Microscope.Env bench_cv :=
  Microscope.set_handles [true] bench_env.

(** A server after two more requests: a capture with the credentials and
    a batch delete without. *)
Definition served_process (p0 : @Microscope.Process bench_cv)
    : @Microscope.Process bench_cv :=
  (Microscope.app bench_int "<html>" bench_credentials None
     (Microscope.BatchDelete {| Microscope.files := Some ["a.jpg"] |})
     (Microscope.app bench_int "<html>" bench_credentials
        (Some bench_authorization) Microscope.Capture p0).1).1.

End Spec.
(* ===================================================================== *)
(** ** Facts about the file system *)
(* ===================================================================== *)

Section MonadFacts.
Context {S A B : Type}.

Lemma bind_ok (m : M S A) (k : A → M S B) s s' a :
  m s = (s', Ok a) → bind m k s = k a s'.
Proof. unfold bind. by intros ->. Qed.

Lemma bind_raise (m : M S A) (k : A → M S B) s s' e :
  m s = (s', Raise e) → bind m k s = (s', Raise e).
Proof. unfold bind. by intros ->. Qed.

End MonadFacts.

Section PosixFacts.
Import Posix.

Lemma lstat_nil n : lstat n [] = Some (kind_of n).
Proof. reflexivity. Qed.

Lemma lstat_cons w es c q :
  lstat (Dir w es) (c :: q) =
    match es !! c with Some n' => lstat n' q | None => None end.
Proof. unfold lstat; simpl. by destruct (es !! c). Qed.

Lemma lstat_cons_nodir n c q :
  (∀ w es, n ≠ Dir w es) → lstat n (c :: q) = None.
Proof. intros Hn. destruct n; try done. by destruct (Hn writable entries). Qed.

(** [unlink] only succeeds below a directory. *)
Lemma unlink_is_dir n p n' :
  unlink n p = Some n' →
  ∃ w es es', n = Dir w es ∧ n' = Dir w es' ∧ p ≠ [].
Proof.
  destruct p as [|c p]; [done|]. destruct n as [|w es|]; try done.
  simpl. destruct (es !! c) as [n0|]; [|done].
  destruct p as [|c' p].
  - destruct n0; try done; destruct w; try done;
      intros [= <-]; eauto 10.
  - destruct (unlink n0 (c' :: p)); [|done]. intros [= <-]; eauto 10.
Qed.

(** After [unlink p] the entry and what would lie below it are gone, and
    every other path is as before. *)
Lemma lstat_unlink n p n' q :
  unlink n p = Some n' →
  lstat n' q = if bool_decide (p `prefix_of` q) then None else lstat n q.
Proof.
  revert n n' q. induction p as [|c p IH]; intros n n' q Hu; [done|].
  destruct n as [|w es|]; try done. simpl in Hu.
  destruct (es !! c) as [n0|] eqn:Hc; [|done].
  destruct q as [|c' q].
  { rewrite bool_decide_eq_false_2.
    - destruct p; [destruct n0; try done; destruct w; try done|
                   destruct (unlink n0 _); try done];
        by injection Hu as <-.
    - intros [k Hk]. done. }
  destruct (decide (c = c')) as [<-|Hne].
  - destruct p as [|c2 p].
    + rewrite bool_decide_eq_true_2.
      * assert (n' = Dir w (delete c es)) as ->.
        { destruct n0; try done; destruct w; try done; by injection Hu. }
        by rewrite lstat_cons, lookup_delete_eq.
      * by apply prefix_cons, prefix_nil.
    + destruct (unlink n0 (c2 :: p)) as [n1|] eqn:Hu1; [|done].
      injection Hu as <-.
      rewrite !lstat_cons, lookup_insert_eq, Hc.
      rewrite (IH _ _ q Hu1).
      rewrite (bool_decide_ext (c2 :: p `prefix_of` q)
                 (c :: c2 :: p `prefix_of` c :: q)); [done|].
      split; [by apply prefix_cons | by apply prefix_cons_inv_2].
  - rewrite bool_decide_eq_false_2.
    + assert (∃ es', n' = Dir w es' ∧ es' !! c' = es !! c') as (es' & -> & Hes).
      { destruct p as [|c2 p].
        - destruct n0; try done; destruct w; try done; injection Hu as <-;
            eexists; split; try done; by rewrite lookup_delete_ne.
        - destruct (unlink n0 (c2 :: p)); [|done]. injection Hu as <-.
          eexists; split; try done. by rewrite lookup_insert_ne. }
      by rewrite !lstat_cons, Hes.
    + intros Hp. by apply prefix_cons_inv_1 in Hp.
Qed.

(** Nothing lies below an entry that can be unlinked. *)
Lemma lstat_below_unlinked n p n' q :
  unlink n p = Some n' → p `prefix_of` q → q ≠ p → lstat n q = None.
Proof.
  revert n n' q. induction p as [|c p IH]; intros n n' q Hu Hp Hq; [done|].
  destruct n as [|w es|]; try done. simpl in Hu.
  destruct (es !! c) as [n0|] eqn:Hc; [|done].
  destruct Hp as [k ->]. simpl. rewrite lstat_cons, Hc.
  destruct p as [|c2 p].
  - destruct k as [|c3 k]; [done|]. simpl.
    apply lstat_cons_nodir. intros w' es' ->. done.
  - destruct (unlink n0 (c2 :: p)) as [n1|] eqn:Hu1; [|done].
    apply (IH _ _ _ Hu1).
    + by eexists.
    + intros Heq. apply Hq. simpl in Heq |- *. by rewrite Heq.
Qed.

(** Removing one entry does not change whether another can be removed. *)
Lemma unlink_other n p n' q :
  unlink n p = Some n' → q ≠ p →
  is_Some (unlink n' q) ↔ is_Some (unlink n q).
Proof.
  revert n n' q. induction p as [|c p IH]; intros n n' q Hu Hq; [done|].
  destruct n as [|w es|]; try done. simpl in Hu.
  destruct (es !! c) as [n0|] eqn:Hc; [|done].
  destruct q as [|c' q].
  { split; intros [? ?]; by destruct n'. }
  destruct (decide (c = c')) as [<-|Hne].
  - destruct p as [|c2 p].
    + assert (n' = Dir w (delete c es) ∧ ∀ w' es', n0 ≠ Dir w' es')
        as [-> Hn0].
      { destruct n0; try done; destruct w; try done; by injection Hu. }
      simpl. rewrite lookup_delete_eq, Hc.
      destruct q as [|c3 q]; [done|].
      destruct n0; try done; split; intros [? ?]; done.
    + destruct (unlink n0 (c2 :: p)) as [n1|] eqn:Hu1; [|done].
      injection Hu as <-. simpl. rewrite lookup_insert_eq, Hc.
      destruct q as [|c3 q].
      * apply unlink_is_dir in Hu1 as (?&?&?&->&->&?).
        split; intros [? ?]; done.
      * assert (c3 :: q ≠ c2 :: p) as Hq' by congruence.
        pose proof (IH _ _ _ Hu1 Hq') as [H1 H2].
        split; intros [x Hx].
        -- destruct (unlink n1 (c3 :: q)) eqn:E; [|done].
           destruct H1 as [y ->]; eauto.
        -- destruct (unlink n0 (c3 :: q)) eqn:E; [|done].
           destruct H2 as [y ->]; eauto.
  - assert (∃ es', n' = Dir w es' ∧ es' !! c' = es !! c') as (es' & -> & Hes).
    { destruct p as [|c2 p].
      - destruct n0; try done; destruct w; try done; injection Hu as <-;
          eexists; split; try done; by rewrite lookup_delete_ne.
      - destruct (unlink n0 (c2 :: p)); [|done]. injection Hu as <-.
        eexists; split; try done. by rewrite lookup_insert_ne. }
    simpl. rewrite Hes. destruct (es !! c') as [n2|]; [|done].
    destruct q as [|c3 q].
    + destruct n2; try done; destruct w; split; intros [? ?]; eauto; done.
    + destruct (unlink n2 (c3 :: q)); split; intros [? ?]; eauto; done.
Qed.


End PosixFacts.

(* ===================================================================== *)
(** ** Facts about path resolution *)
(* ===================================================================== *)

Section ResolveFacts.
Import Posix Pathlib Spec.

(** Resolution looks at the tree through [readlink] only. *)
Lemma walk_ext f1 f2 r1 r2 cur rest :
  (∀ q, readlink r1 q = readlink r2 q) →
  (∀ c t, f1 c t = f2 c t) →
  walk f1 r1 cur rest = walk f2 r2 cur rest.
Proof.
  intros Hr Hf. revert cur.
  induction rest as [|name rest IH]; intros cur; simpl; [done|].
  repeat case_bool_decide; auto.
  rewrite Hr. destruct (readlink r2 _) as [t|]; [|auto].
  rewrite Hf. destruct (f2 cur t); auto.
Qed.

Lemma joinrealpath_ext d r1 r2 cur s :
  (∀ q, readlink r1 q = readlink r2 q) →
  joinrealpath d r1 cur s = joinrealpath d r2 cur s.
Proof.
  intros Hr. revert cur s. induction d as [|d IH]; intros cur s; simpl;
    [done|].
  by apply walk_ext.
Qed.

Lemma resolve_ext r1 r2 p :
  (∀ q, readlink r1 q = readlink r2 q) → resolve r1 p = resolve r2 p.
Proof.
  intros Hr. unfold resolve, realpath.
  rewrite (walk_ext _ (joinrealpath SYMLOOP_MAX r2) r1 r2); [done|done|].
  intros c t. by apply joinrealpath_ext.
Qed.

Lemma nolink_nil root : nolink root [].
Proof. intros q Hq Hp. apply prefix_nil_inv in Hp. done. Qed.

Lemma prefix_snoc_inv {A} (q l : list A) x :
  q `prefix_of` l ++ [x] → q `prefix_of` l ∨ q = l ++ [x].
Proof.
  intros [k Hk]. destruct k as [|y k _] using rev_ind.
  - right. by rewrite app_nil_r in Hk.
  - left. rewrite app_assoc in Hk. apply app_inj_tail in Hk as [-> _].
    by eexists.
Qed.

Lemma removelast_prefix {A} (l : list A) : removelast l `prefix_of` l.
Proof.
  destruct l as [|x l _] using rev_ind; [done|].
  rewrite removelast_last. by eexists.
Qed.

Lemma nolink_snoc root cur name :
  nolink root cur → readlink root (cur ++ [name]) = None →
  nolink root (cur ++ [name]).
Proof.
  intros Hc Hn q Hq Hp. apply prefix_snoc_inv in Hp as [Hp| ->]; auto.
Qed.

Lemma nolink_removelast root cur :
  nolink root cur → nolink root (removelast cur).
Proof.
  intros Hc q Hq Hp. apply Hc; [done|].
  etrans; [done|]. apply removelast_prefix.
Qed.

Lemma walk_nolink follow root cur rest q :
  (∀ c t c', nolink root c → follow c t = Some c' → nolink root c') →
  nolink root cur → walk follow root cur rest = Some q → nolink root q.
Proof.
  intros Hf. revert cur.
  induction rest as [|name rest IH]; intros cur Hc; simpl.
  { by intros [= <-]. }
  repeat case_bool_decide; eauto using nolink_removelast.
  destruct (readlink root (cur ++ [name])) as [t|] eqn:Hl.
  - destruct (follow cur t) as [c'|] eqn:Hfo; [|done]. eauto.
  - eauto using nolink_snoc.
Qed.

Lemma joinrealpath_nolink d root cur s q :
  nolink root cur → joinrealpath d root cur s = Some q → nolink root q.
Proof.
  revert cur s q. induction d as [|d IH]; intros cur s q Hc; simpl; [done|].
  apply walk_nolink; [eauto|].
  destruct (isabs s); [apply nolink_nil | done].
Qed.

(** What [resolve] returns has no symbolic link on it. *)
Lemma resolve_nolink root p r : resolve root p = Ok r → nolink root r.
Proof.
  unfold resolve, realpath. destruct (existsb has_nul p); [done|].
  destruct (walk _ _ _ _) as [q|] eqn:Hw; [|done]. intros [= <-].
  revert Hw. apply walk_nolink; [|apply nolink_nil].
  intros c t c'. apply joinrealpath_nolink.
Qed.

Lemma resolve_readlink root p r :
  resolve root p = Ok r → r ≠ [] → readlink root r = None.
Proof. intros Hr Hne. by apply (resolve_nolink _ _ _ Hr). Qed.

(** Removing something that is not a link changes no [readlink]. *)
Lemma readlink_unlink n p n' q :
  unlink n p = Some n' → readlink n p = None →
  readlink n' q = readlink n q.
Proof.
  intros Hu Hl. unfold readlink at 1. rewrite (lstat_unlink _ _ _ _ Hu).
  case_bool_decide as Hp; [|done].
  destruct (decide (q = p)) as [->|Hne]; [done|].
  unfold readlink. by rewrite (lstat_below_unlinked _ _ _ _ Hu Hp Hne).
Qed.

Lemma resolve_unlink n p n' q :
  unlink n p = Some n' → readlink n p = None →
  resolve n' q = resolve n q.
Proof. intros Hu Hl. apply resolve_ext. intros. by eapply readlink_unlink. Qed.

Lemma suffix_nil_jpg r : suffix r = ".jpg" → r ≠ [].
Proof. by intros Hs ->. Qed.

(** An accepted location is a file or a directory. *)
Lemma accepted_Some root cd f r :
  accepted root cd f = Some r →
  resolve root (joinpath cd f) = Ok r ∧ is_relative_to r cd = true
  ∧ suffix r = ".jpg" ∧ readlink root r = None
  ∧ ∃ k, lstat root r = Some k ∧ ∀ t, k ≠ KLink t.
Proof.
  unfold accepted. destruct (resolve _ _) as [r'|] eqn:Hr; [|done].
  destruct (is_relative_to r' cd) eqn:Hrel; [|done].
  destruct (exists_ root r') eqn:Hex; [|done].
  case_bool_decide as Hs; [|done]. simpl. intros [= <-].
  pose proof (resolve_readlink _ _ _ Hr (suffix_nil_jpg _ Hs)) as Hl.
  repeat split; try done.
  unfold exists_ in Hex. apply bool_decide_eq_true in Hex as [k Hk].
  exists k. split; [done|]. intros t ->. unfold readlink in Hl.
  by rewrite Hk in Hl.
Qed.

Lemma deletable_Some root cd f r :
  deletable root cd f = Some r →
  accepted root cd f = Some r ∧ is_Some (unlink root r).
Proof.
  unfold deletable. destruct (accepted root cd f) as [r'|]; [|done].
  destruct (unlink root r') eqn:Hu; [|done]. intros [= <-]. eauto.
Qed.

(** After a removal the names deletable are those that were, apart from
    the one removed. *)
Lemma deletable_unlink root cd r root' f :
  unlink root r = Some root' → readlink root r = None →
  deletable root' cd f =
    match deletable root cd f with
    | Some r' => if decide (r' = r) then None else Some r'
    | None => None
    end.
Proof.
  intros Hu Hl. unfold deletable, accepted.
  rewrite (resolve_unlink _ _ _ _ Hu Hl).
  destruct (resolve root (joinpath cd f)) as [r'|]; [|done].
  destruct (is_relative_to r' cd); [|done]. simpl.
  assert (exists_ root' r' =
            if bool_decide (r `prefix_of` r') then false
            else exists_ root r') as ->.
  { unfold exists_. rewrite (lstat_unlink _ _ _ r' Hu).
    destruct (bool_decide (r `prefix_of` r')); [|done].
    apply bool_decide_eq_false_2. by intros [? ?]. }
  destruct (decide (r' = r)) as [->|Hne].
  - rewrite bool_decide_eq_true_2 by done. simpl.
    destruct (exists_ root r && _); [|done]. rewrite Hu.
    by rewrite decide_True.
  - destruct (bool_decide (r `prefix_of` r')) eqn:Hp.
    + apply bool_decide_eq_true in Hp. simpl. unfold exists_.
      rewrite (lstat_below_unlinked _ _ _ _ Hu Hp Hne).
      by rewrite bool_decide_eq_false_2 by (by intros [? ?]).
    + destruct (exists_ root r' && _); [|done].
      pose proof (unlink_other _ _ _ _ Hu Hne) as [H1 H2].
      destruct (unlink root r') as [x|] eqn:E1.
      * destruct H2 as [y ->]; [eauto|]. by rewrite decide_False.
      * destruct (unlink root' r') as [y|] eqn:E2; [|done].
        destruct H1 as [? ?]; eauto; done.
Qed.

Lemma removed_nil root cd : removed root cd [] = ∅.
Proof. reflexivity. Qed.

Lemma removed_cons root cd f files :
  removed root cd (f :: files) =
    match deletable root cd f with
    | Some r => {[ r ]} ∪ removed root cd files
    | None => removed root cd files
    end.
Proof. unfold removed. simpl. by destruct (deletable root cd f). Qed.

Lemma removed_unlink root cd r root' files :
  unlink root r = Some root' → readlink root r = None →
  removed root' cd files = removed root cd files ∖ {[ r ]}.
Proof.
  intros Hu Hl. induction files as [|f files IH].
  - rewrite !removed_nil. by rewrite difference_disjoint_L.
  - rewrite !removed_cons, IH, (deletable_unlink _ _ _ _ _ Hu Hl).
    destruct (deletable root cd f) as [r'|]; [|done].
    apply set_eq. intros x.
    case_decide as Hr; subst;
      rewrite ?elem_of_union, !elem_of_difference, ?elem_of_union,
        !elem_of_singleton; intuition congruence.
Qed.

End ResolveFacts.

(* ===================================================================== *)
(** ** The capture store of docker-microscope *)
(* ===================================================================== *)

Section CaptureStore.
Import Posix Pathlib Flask Spec Microscope.
Context `{OpenCV}.

(** Chooses the state a loop continues from once the equation between
    the two runs fixes it. *)
Ltac pick_env :=
  eexists; split; [|split]; [ | |reflexivity]; reflexivity.

Lemma batch_delete_loop_cons cd f files deleted e r :
  resolve (root e) (joinpath cd f) = Ok r →
  ∃ e1,
    root e1 = root e ∧ video e1 = video e ∧
    batch_delete_loop cd (f :: files) deleted e =
      match deletable (root e) cd f with
      | Some r' =>
          match unlink (root e) r' with
          | Some root' =>
              batch_delete_loop cd files (S deleted) (set_root root' e1)
          | None => batch_delete_loop cd files deleted e1
          end
      | None => batch_delete_loop cd files deleted e1
      end.
Proof.
  intros Hr. simpl. unfold deletable, accepted.
  unfold bind at 1. unfold Path_resolve, bind, log, modify. simpl. rewrite Hr.
  destruct (is_relative_to r cd); simpl; [|pick_env].
  unfold Path_exists, bind, log, modify. simpl.
  destruct (exists_ (root e) r); simpl; [|pick_env].
  case_bool_decide; simpl; [|pick_env].
  unfold try_except, os_remove, bind, log, modify. simpl.
  destruct (unlink (root e) r) as [root'|] eqn:Hu; simpl; rewrite ?Hu;
    pick_env.
Qed.

Lemma resolvable_unlink tree cd r tree' files :
  unlink tree r = Some tree' → readlink tree r = None →
  Forall (resolvable tree cd) files → Forall (resolvable tree' cd) files.
Proof.
  intros Hu Hl Hf. eapply Forall_impl; [done|]. intros f [q Hq]. exists q.
  by rewrite (resolve_unlink _ _ _ _ Hu Hl).
Qed.

(** The loop of [batch_delete] removes the deletable locations, counts
    them, and leaves every other path as it was. *)
Lemma batch_delete_loop_spec cd files : ∀ e deleted,
  Forall (resolvable (root e) cd) files →
  ∃ e',
    batch_delete_loop cd files deleted e =
      (e', Ok (deleted + size (removed (root e) cd files)))
    ∧ video e' = video e
    ∧ ∀ q, lstat (root e') q =
            if bool_decide (q ∈ removed (root e) cd files) then None
            else lstat (root e) q.
Proof.
  induction files as [|f files IH]; intros e deleted Hres.
  { exists e. rewrite removed_nil, size_empty, Nat.add_0_r.
    repeat split. }
  apply Forall_cons in Hres as [[r Hr] Hres].
  destruct (batch_delete_loop_cons cd f files deleted e r Hr)
    as (e1 & Hroot & Hvid & ->).
  rewrite removed_cons.
  destruct (deletable (root e) cd f) as [r'|] eqn:Hd.
  - apply deletable_Some in Hd as [Hacc [root' Hu]]. rewrite Hu.
    apply accepted_Some in Hacc as (_ & _ & _ & Hl & _).
    destruct (IH (set_root root' e1) (S deleted)) as (e' & -> & Hv & Hq).
    { simpl. by eapply resolvable_unlink. }
    simpl in Hq, Hv. exists e'. split; [|split].
    + f_equal. f_equal. rewrite (removed_unlink _ _ _ _ _ Hu Hl).
      rewrite (size_union_alt (C:=gset (list string)) {[r']}).
      rewrite (size_singleton (C:=gset (list string)) r'). lia.
    + congruence.
    + intros q. rewrite Hq, (removed_unlink _ _ _ _ _ Hu Hl).
      rewrite (lstat_unlink _ _ _ q Hu).
      destruct (decide (q = r')) as [->|Hne].
      { rewrite bool_decide_eq_false_2
          by (intros [_ Hn]%elem_of_difference; apply Hn;
              by apply elem_of_singleton).
        rewrite bool_decide_eq_true_2 by done.
        by rewrite bool_decide_eq_true_2
          by (by apply elem_of_union_l, elem_of_singleton). }
      destruct (decide (q ∈ removed (root e) cd files)) as [Hin|Hin].
      { rewrite bool_decide_eq_true_2
          by (apply elem_of_difference; split;
              [done|by rewrite elem_of_singleton]).
        by rewrite bool_decide_eq_true_2 by (by apply elem_of_union_r). }
      rewrite bool_decide_eq_false_2
        by (by intros [? _]%elem_of_difference).
      rewrite (bool_decide_eq_false_2 (q ∈ _ ∪ _))
        by (by intros [?%elem_of_singleton|?]%elem_of_union).
      case_bool_decide as Hp; [|done].
      symmetry. by eapply lstat_below_unlinked.
  - destruct (IH e1 deleted) as (e' & -> & Hv & Hq).
    { by rewrite Hroot. }
    rewrite Hroot in *. exists e'. split; [done|]. split; [congruence|done].
Qed.

Lemma batch_download_loop_cons cd f files zf e r :
  resolve (root e) (joinpath cd f) = Ok r →
  ∃ e1,
    root e1 = root e ∧ video e1 = video e ∧
    batch_download_loop cd (f :: files) zf e =
      batch_download_loop cd files
        (zf ++ option_list (member (root e) cd f)) e1.
Proof.
  intros Hr. simpl. unfold member.
  destruct (accepted (root e) cd f) as [r'|] eqn:Hacc.
  - apply accepted_Some in Hacc as (Hr' & Hrel & Hs & _ & k & Hk & Hnl).
    assert (r' = r) as -> by congruence.
    unfold bind at 1. unfold Path_resolve, bind, log, modify. simpl.
    rewrite Hr, Hrel. simpl.
    unfold Path_exists, bind, log, modify. simpl.
    unfold exists_ at 1. rewrite bool_decide_eq_true_2 by (rewrite Hk; eauto).
    rewrite bool_decide_eq_true_2 by done. simpl.
    unfold zip_write, bind, log, modify, Zipfile.write. simpl. rewrite Hk.
    destruct k as [d|w|t]; [pick_env|pick_env|by destruct (Hnl t)].
  - revert Hacc. unfold accepted. rewrite Hr.
    unfold bind at 1. unfold Path_resolve, bind, log, modify. simpl.
    rewrite Hr. destruct (is_relative_to r cd); simpl.
    + unfold Path_exists, bind, log, modify. simpl.
      destruct (exists_ (root e) r && _); [done|]. intros _.
      rewrite app_nil_r. pick_env.
    + intros _. rewrite app_nil_r. pick_env.
Qed.

(** The loop of [batch_download] adds the member of every accepted name,
    in the order requested, and changes no file. *)
Lemma batch_download_loop_spec cd files : ∀ e zf,
  Forall (resolvable (root e) cd) files →
  ∃ e',
    batch_download_loop cd files zf e =
      (e', Ok (zf ++ omap (member (root e) cd) files))
    ∧ root e' = root e ∧ video e' = video e.
Proof.
  induction files as [|f files IH]; intros e zf Hres.
  { exists e. simpl. by rewrite app_nil_r. }
  apply Forall_cons in Hres as [[r Hr] Hres].
  destruct (batch_download_loop_cons cd f files zf e r Hr)
    as (e1 & Hroot & Hvid & ->).
  destruct (IH e1 (zf ++ option_list (member (root e) cd f)))
    as (e' & -> & Hr' & Hv').
  { by rewrite Hroot. }
  exists e'. rewrite Hroot in *. split; [|split; congruence].
  f_equal. f_equal. rewrite <- app_assoc. f_equal. simpl.
  by destruct (member (root e) cd f).
Qed.

End CaptureStore.

(* ===================================================================== *)
(** ** Properties of the capture store *)
(* ===================================================================== *)

Section ArchiveNames.
Import Posix Pathlib Spec.

Lemma split_no_slash s : has_slash s = false → split "/" s = [s].
Proof.
  induction s as [|c s IH]; [done|]. simpl.
  destruct (Ascii.eqb c "/"); [done|]. simpl. intros Hs. by rewrite IH.
Qed.

(** A plain file name is the name of its archive member. *)
Lemma arcname_of_plain f : plain_name f → Zipfile.arcname_of f = f.
Proof.
  intros (Hs & Hne & Hd & Hdd).
  unfold Zipfile.arcname_of, normpath.
  rewrite bool_decide_eq_false_2 by done.
  assert (isabs f = false) as Ha.
  { destruct f as [|c f]; [done|]. simpl in *.
    by destruct (Ascii.eqb c "/"). }
  rewrite Ha, split_no_slash by done. simpl. unfold normpath_step.
  rewrite (bool_decide_eq_false_2 (f = "" ∨ f = ".")) by (by intros [?|?]).
  rewrite (bool_decide_eq_true_2 (f ≠ ".." ∨ _)) by (by left). simpl.
  rewrite bool_decide_eq_false_2 by done.
  destruct f as [|c f]; [done|]. simpl in *.
  by destruct (Ascii.eqb c "/").
Qed.

End ArchiveNames.

Section CaptureStoreTheorems.
Import Posix Pathlib Flask Spec Microscope.
Context `{OpenCV}.



(** C10.  A batch request whose [files] entry is absent or empty is
    answered with status 400 by both batch handlers, and nothing is
    asked of the file system: the state, with its record of calls, is
    the one before. *)
Theorem empty_batch_is_bad_request (e : Env) :
  batch_download {| Microscope.files := None |} e =
    (e, Ok (jsonify [("error", JStr "No files specified")] 400))
  ∧ batch_download {| Microscope.files := Some [] |} e =
    (e, Ok (jsonify [("error", JStr "No files specified")] 400))
  ∧ batch_delete {| Microscope.files := None |} e =
    (e, Ok (jsonify [("error", JStr "No files specified")] 400))
  ∧ batch_delete {| Microscope.files := Some [] |} e =
    (e, Ok (jsonify [("error", JStr "No files specified")] 400)).
Proof. repeat split. Qed.



End CaptureStoreTheorems.

Section CaptureStoreRuns.
Import Posix Pathlib Flask Spec Microscope.




(** The scenario of the specification: of [{A, B, nonexistent}] two are
    deleted and three requested, and [A] and [B] are gone afterwards. *)
Example batch_delete_two_of_three :
  ∃ e',
    batch_delete
      {| Microscope.files := Some ["a.jpg"; "b.jpg"; "nonexistent.jpg"] |}
      bench_env =
      (e', Ok (jsonify [("deleted", JNum 2); ("requested", JNum 3)] 200))
    ∧ lstat (root e') ["app"; "captures"; "a.jpg"] = None
    ∧ lstat (root e') ["app"; "captures"; "b.jpg"] = None
    ∧ lstat (root e') ["app"; "captures"; "notes.txt"] = Some (KFile "text").
Proof. eexists. split; [vm_compute; reflexivity|]. by vm_compute. Qed.



(** The scenario of the specification: the export of [{A, B}] has two
    members, named [A] and [B], with the bytes of the files. *)
Example batch_download_two_members :
  ∃ e',
    batch_download {| Microscope.files := Some ["a.jpg"; "b.jpg"] |}
      bench_env =
      (e', Ok {| status := 200; mimetype := "application/zip";
                 headers := [("Content-Disposition",
                              "attachment; filename=captures.zip")];
                 payload :=
                   Archive
                     [{| Zipfile.filename := "a.jpg";
                         Zipfile.contents := "AAAA" |};
                      {| Zipfile.filename := "b.jpg";
                         Zipfile.contents := "BBBB" |}] |}).
Proof. eexists. vm_compute. reflexivity. Qed.




(** A name with an embedded null byte cannot be resolved: the batch
    handlers call [resolve] outside their [try], the exception leaves
    the handler and the names after it are not looked at, while the view
    handler catches it. *)
Example batch_delete_stops_at_null_byte :
  let bad := String NUL "" in
  (∃ e',
     batch_delete {| Microscope.files := Some [bad; "a.jpg"] |} bench_env
       = (e', Raise ValueError)
     ∧ lstat (root e') ["app"; "captures"; "a.jpg"] = Some (KFile "AAAA"))
  ∧ (∃ e', get_capture bad bench_env
           = (e', Ok (jsonify [("error", JStr "Invalid file path")] 400))).
Proof.
  split.
  - eexists. split; [vm_compute; reflexivity|by vm_compute].
  - eexists. vm_compute. reflexivity.
Qed.

End CaptureStoreRuns.

(* ===================================================================== *)
(** ** The device lifecycle *)
(* ===================================================================== *)

Section Lifecycle.
Import Posix Pathlib Flask Spec.
Context `{OpenCV}.

(** C8.  [stop()] never raises, in either service and from any state:
    with no handle it changes nothing, and otherwise it leaves the
    service without handle and the resource of the handle released (the
    capture object not open any more, the child process not running).
    A second [stop()] in a row is the first case. *)
Theorem stop_is_idempotent :
  (∀ (s : Microscope.CameraService) (e : Microscope.Env),
     ∃ e',
       Microscope.stop (s, e) = ((Microscope.set_camera None s, e'), Ok tt)
       ∧ (Microscope.camera s = None → e' = e)
       ∧ (∀ c, Microscope.camera s = Some c →
               default false (Microscope.handles (Microscope.video e') !! c)
               = false)
       ∧ Microscope.camera_ok (Microscope.set_camera None s, e') =
           ((Microscope.set_camera None s, e'), Ok false)
       ∧ Microscope.stop (Microscope.set_camera None s, e') =
           ((Microscope.set_camera None s, e'), Ok tt))
  ∧ (∀ (s : CSI.CSICameraService) (e : CSI.Env),
       ∃ e',
         CSI.stop (s, e) = ((CSI.set_process None s, e'), Ok tt)
         ∧ (CSI.process s = None → e' = e)
         ∧ (∀ pid p, CSI.process s = Some pid →
                     CSI.table e' !! pid = Some p → CSI.running p = false)
         ∧ CSI.stop (CSI.set_process None s, e') =
             ((CSI.set_process None s, e'), Ok tt)).
Proof.
  split.
  - intros s e. unfold Microscope.stop, bind, Microscope.self. simpl.
    destruct s as [dev w h [c|] dir]; simpl.
    + eexists. split; [reflexivity|]. split; [done|]. split; [|done].
      intros c' [= <-]. simpl.
      destruct (decide (c < length (Microscope.handles (Microscope.video e))))
        as [Hlt|Hge].
      * by rewrite list_lookup_insert_eq.
      * rewrite list_insert_ge by lia. by rewrite lookup_ge_None_2 by lia.
    + exists e. by repeat split.
  - intros s e. unfold CSI.stop, bind, CSI.self. simpl.
    destruct s as [w h fps [pid|] dir]; simpl.
    + unfold CSI.world, CSI.terminate, CSI.wait, CSI.kill, CSI.has_exited,
        try_except, bind, modify, ret, raise. simpl.
      rewrite list_lookup_alter_eq.
      destruct (CSI.table e !! pid) as [p|] eqn:Hp; simpl.
      * destruct (CSI.ignores_sigterm p) eqn:Hi; simpl;
          [destruct (CSI.running p) eqn:Hrun; simpl|];
          (eexists; split; [reflexivity|]; split; [done|]; split; [|done];
           intros pid' p' [= <-]; simpl;
           rewrite ?list_lookup_alter_eq, ?Hp; simpl; rewrite ?Hi;
           intros [= <-]; done).
      * eexists; split; [reflexivity|]; split; [done|]; split; [|done].
        intros pid' p' [= <-]. simpl. rewrite list_lookup_alter_eq, Hp. done.
    + exists e. by repeat split.
Qed.

(** [start] of docker-microscope, computed: the new capture object is
    bound to the service whatever happens next; when it is open three
    answers of the device are dropped and the fourth decides. *)
Lemma microscope_start_eq (s : Microscope.CameraService)
    (e : Microscope.Env) :
  let c := length (Microscope.handles (Microscope.video e)) in
  let e1 :=
    Microscope.set_handles
      (Microscope.handles (Microscope.video e)
         ++ [Microscope.openable (Microscope.video e)]) e in
  Microscope.start (s, e) =
    if Microscope.openable (Microscope.video e) then
      ((Microscope.set_camera (Some c) s,
        Microscope.set_feed (drop 4 (Microscope.feed (Microscope.video e)))
          e1),
       Ok (verified (Microscope.feed (Microscope.video e))))
    else ((Microscope.set_camera (Some c) s, e1), Ok false).
Proof.
  destruct e as [rt lg [op fd hs] ck en]. simpl.
  assert ((hs ++ [true]) !! length hs = Some true) as Hlk
    by (by apply list_lookup_middle).
  assert ((hs ++ [false]) !! length hs = Some false) as Hlk'
    by (by apply list_lookup_middle).
  unfold Microscope.start, try_except, bind, Microscope.self, Microscope.world,
    Microscope.cv2_VideoCapture, Microscope.assign_camera, modify,
    Microscope.isOpened, Microscope.warmup, Microscope.read, bind,
    Microscope.isOpened, ret, raise, Microscope.set_handles,
    Microscope.set_feed, Microscope.set_video.
  simpl. destruct op; simpl; rewrite ?Hlk, ?Hlk'; simpl; [|done].
  destruct fd as [|r1 [|r2 [|r3 [|[[|] [f|]] rest]]]]; simpl;
    rewrite ?Hlk; simpl; rewrite ?Hlk; simpl; rewrite ?Hlk; simpl;
    rewrite ?Hlk; simpl; reflexivity.
Qed.

Lemma csi_start_eq (s : CSI.CSICameraService) (e : CSI.Env) :
  CSI.start (s, e) =
    match CSI.rpicam_vid e with
    | None => ((s, e), Ok false)
    | Some p =>
        ((CSI.set_process (Some (length (CSI.table e))) s,
          CSI.set_table (CSI.table e ++ [p]) e), Ok (CSI.running p))
    end.
Proof.
  unfold CSI.start, try_except, bind, CSI.world, CSI.Popen,
    CSI.assign_process, CSI.has_exited, modify, ret, raise. simpl.
  destruct (CSI.rpicam_vid e) as [p|]; simpl; [|done].
  rewrite list_lookup_middle by done. by destruct (CSI.running p).
Qed.

(** C5, as amended.  [start] never raises.  In docker-microscope it
    answers [True] exactly when the device opened, three answers of the
    device were dropped and the next read gave a frame, and the handle is
    then open; when the device does not open it answers [False] with the
    handle not open; the outcome does not depend on the state the service
    was in, so that a [start] after a failed one can succeed.  In
    csi-camera it answers [True] exactly when [rpicam-vid] could be
    launched and is still running after the delay, and reads nothing from
    it; when the launch fails the service is as before. *)
Theorem start_success_is_verified :
  (∀ (s : Microscope.CameraService) (e : Microscope.Env),
     ∃ st b,
       Microscope.start (s, e) = (st, Ok b)
       ∧ (b = true ↔
            Microscope.openable (Microscope.video e) = true
            ∧ ∃ f rest, drop 3 (Microscope.feed (Microscope.video e))
                        = (true, Some f) :: rest)
       ∧ Microscope.feed (Microscope.video (snd st)) =
           (if Microscope.openable (Microscope.video e)
            then drop 4 (Microscope.feed (Microscope.video e))
            else Microscope.feed (Microscope.video e))
       ∧ (b = true → Microscope.camera_ok st = (st, Ok true))
       ∧ (Microscope.openable (Microscope.video e) = false →
            Microscope.camera_ok st = (st, Ok false)))
  ∧ (∀ (s : CSI.CSICameraService) (e : CSI.Env),
       ∃ st b,
         CSI.start (s, e) = (st, Ok b)
         ∧ (b = true ↔
              ∃ p, CSI.rpicam_vid e = Some p ∧ CSI.running p = true)
         ∧ (∀ p, CSI.rpicam_vid e = Some p →
                 CSI.process (fst st) = Some (length (CSI.table e))
                 ∧ CSI.table (snd st) = CSI.table e ++ [p])
         ∧ (CSI.rpicam_vid e = None → st = (s, e))).
Proof.
  split.
  - intros s e. rewrite microscope_start_eq.
    destruct e as [rt lg [op fd hs] ck en]. simpl.
    destruct op; simpl.
    + eexists _, _. split; [reflexivity|]. split; [|split; [done|split]].
      * unfold verified. simpl.
        destruct (drop 3 fd) as [|[[|] [f|]] rest]; split;
          try done; try (intros [_ (?&?&?)]; done).
        intros _. eauto.
      * intros _. unfold Microscope.camera_ok, bind, Microscope.self,
          Microscope.world, Microscope.isOpened. simpl.
        by rewrite list_lookup_middle.
      * done.
    + eexists _, _. split; [reflexivity|]. split; [|split; [done|split]].
      * split; [done|]. by intros [? _].
      * done.
      * intros _. unfold Microscope.camera_ok, bind, Microscope.self,
          Microscope.world, Microscope.isOpened. simpl.
        by rewrite list_lookup_middle.
  - intros s e. rewrite csi_start_eq.
    destruct (CSI.rpicam_vid e) as [p|]; eexists _, _;
      (split; [reflexivity|]); simpl.
    + split; [|split; [|done]].
      * split; [intros Hp; eauto|]. by intros (p' & [= <-] & Hp).
      * by intros p' [= <-].
    + split; [|split; [done|done]].
      split; [done|]. by intros (p' & ? & _).
Qed.

End Lifecycle.

(* ===================================================================== *)
(** ** The stream *)
(* ===================================================================== *)

Section Stream.
Import Posix Pathlib Flask Spec.
Context `{OpenCV}.

Lemma microscope_read_frame_eq (s : Microscope.CameraService)
    (e : Microscope.Env) c :
  Microscope.camera s = Some c →
  Microscope.handles (Microscope.video e) !! c = Some true →
  Microscope.read_frame (s, e) =
    match Microscope.feed (Microscope.video e) with
    | (true, Some f) :: rest => ((s, Microscope.set_feed rest e), Ok (Some f))
    | _ :: rest => ((s, Microscope.set_feed rest e), Ok None)
    | [] => ((s, e), Ok None)
    end.
Proof.
  intros Hc Hh.
  unfold Microscope.read_frame, bind, Microscope.self, Microscope.world,
    Microscope.read, bind, Microscope.isOpened, ret. simpl.
  rewrite Hc. simpl. rewrite Hh. simpl. rewrite Hh. simpl.
  by destruct (Microscope.feed (Microscope.video e))
    as [|[[|] [f|]] rest].
Qed.

(** With an open handle the loop of [generate_stream] yields one part
    for every frame read that the encoder accepts, until a read gives no
    frame; more turns than the device has answers are never used. *)
Lemma microscope_generate_stream_loop (s : Microscope.CameraService) c n :
  Microscope.camera s = Some c →
  ∀ e : Microscope.Env,
    Microscope.handles (Microscope.video e) !! c = Some true →
    length (Microscope.feed (Microscope.video e)) < n →
    Microscope.generate_stream_loop n (s, e) =
      ((s, Microscope.set_feed
             (answers_left (Microscope.feed (Microscope.video e))) e),
       Ok (Microscope.part <$>
             omap (fun f => imencode_jpg f 85)
               (frames_read (Microscope.feed (Microscope.video e))))).
Proof.
  intros Hc. induction n as [|n IH]; intros e Hh Hn; [lia|].
  simpl. unfold bind at 1. rewrite (microscope_read_frame_eq _ _ _ Hc Hh).
  destruct e as [rt lg [op fd hs] ck en]. simpl in *.
  destruct fd as [|[[|] [f|]] rest]; try done. simpl in *.
  destruct (imencode_jpg f 85) as [buffer|] eqn:He.
  - unfold bind. rewrite IH by (simpl; done || lia). simpl.
    rewrite ?He. reflexivity.
  - rewrite IH by (simpl; done || lia). simpl. rewrite ?He. reflexivity.
Qed.

Lemma microscope_generate_stream_eq (s : Microscope.CameraService)
    (e : Microscope.Env) :
  Microscope.generate_stream (s, e) =
    match Microscope.camera s with
    | None => ((s, e), Ok [])
    | Some c =>
        if default false (Microscope.handles (Microscope.video e) !! c)
        then Microscope.generate_stream_loop
               (S (length (Microscope.feed (Microscope.video e)))) (s, e)
        else ((s, e), Ok [])
    end.
Proof.
  unfold Microscope.generate_stream, bind, Microscope.self, Microscope.world,
    Microscope.isOpened, ret. cbn [fst snd].
  destruct (Microscope.camera s) as [c|]; [|reflexivity].
  by destruct (default false _).
Qed.

(** X2.  Every chunk that docker-microscope streams is a boundary line, a
    content-type header and a JPEG image. *)
Theorem microscope_stream_is_framed (s : Microscope.CameraService)
    (e : Microscope.Env) :
  ∃ st chunks,
    Microscope.generate_stream (s, e) = (st, Ok chunks)
    ∧ Forall (fun chunk =>
        ∃ f buffer, imencode_jpg f 85 = Some buffer
                    ∧ chunk = "--frame" +:+ CRLF
                              +:+ "Content-Type: image/jpeg" +:+ CRLF
                              +:+ CRLF +:+ buffer +:+ CRLF) chunks.
Proof.
  rewrite microscope_generate_stream_eq.
  destruct (Microscope.camera s) as [c|] eqn:Hc; [|by eexists _, _].
  destruct (Microscope.handles (Microscope.video e) !! c) as [[|]|] eqn:Hh;
    simpl default; cbv iota; try (by eexists _, _).
  rewrite (microscope_generate_stream_loop s c _ Hc e Hh) by lia.
  eexists _, _. split; [reflexivity|].
  apply Forall_fmap, Forall_forall. intros buffer Hb.
  apply list_elem_of_omap in Hb as (f & _ & Hf). by exists f, buffer.
Qed.

(** What csi-camera streams is what the pipe of [rpicam-vid] gives,
    chunk by chunk and unchanged, until the first empty read. *)
Lemma csi_generate_stream_loop pid n :
  ∀ (s : CSI.CSICameraService) (e : CSI.Env) p,
    CSI.table e !! pid = Some p →
    length (CSI.stdout p) < n →
    ∃ e',
      CSI.generate_stream_loop pid n (s, e) =
        ((s, e'), Ok (chunks_read (CSI.stdout p)))
      ∧ CSI.root e' = CSI.root e.
Proof.
  induction n as [|n IH]; intros s e p Hp Hn; [lia|].
  simpl. unfold bind at 1. unfold CSI.world, CSI.stdout_read. simpl.
  rewrite Hp. destruct p as [run out err ign]. simpl in *.
  destruct out as [|chunk rest]; simpl.
  { by exists e. }
  case_bool_decide as Hc.
  { eexists. split; [reflexivity|done]. }
  unfold bind.
  match goal with
  | |- context [CSI.generate_stream_loop pid n (s, ?e1)] =>
      destruct (IH s e1 {| CSI.running := run; CSI.stdout := rest;
                            CSI.stderr := err; CSI.ignores_sigterm := ign |})
        as (e' & -> & Hroot)
  end.
  - simpl. apply list_lookup_insert_eq. by eapply lookup_lt_Some.
  - simpl in Hn |- *. lia.
  - exists e'. split; [reflexivity|done].
Qed.

(** X16.  Whatever the pipe holds, [generate_stream] of csi-camera yields the
    chunks read from the pipe of its child, unchanged and in order, up
    to the first empty read, and leaves the service object as it is. *)
Theorem csi_stream_is_raw (s : CSI.CSICameraService) (e : CSI.Env) pid p :
  CSI.process s = Some pid →
  CSI.table e !! pid = Some p →
  ∃ e',
    CSI.generate_stream (s, e) = ((s, e'), Ok (chunks_read (CSI.stdout p))).
Proof.
  intros Hs Hp. unfold CSI.generate_stream, bind, CSI.self. cbn [fst snd].
  rewrite Hs. cbn beta iota. cbn [fst snd]. unfold CSI.pending. rewrite Hp.
  destruct (csi_generate_stream_loop pid (S (length (CSI.stdout p))) s e p)
    as (e' & He & _); [done|lia|].
  exists e'. exact He.
Qed.

Lemma microscope_camera_ok_eq (s : Microscope.CameraService)
    (e : Microscope.Env) :
  Microscope.camera_ok (s, e) =
    ((s, e),
     Ok match Microscope.camera s with
        | None => false
        | Some c =>
            default false (Microscope.handles (Microscope.video e) !! c)
        end).
Proof.
  unfold Microscope.camera_ok, bind, Microscope.self, Microscope.world,
    Microscope.isOpened, ret. cbn [fst snd].
  by destruct (Microscope.camera s).
Qed.

(** C6, as amended.  In csi-camera a [/stream] request during which the
    camera cannot be started is answered with status 500 and a plain
    text, and no multipart chunk is written.  In docker-microscope the
    handler does not open the device: when the handle of the service is
    not open, the answer has status 200 and the multipart content type,
    and its body is empty, so that no chunk is written either. *)
Theorem stream_without_camera :
  (∀ p : CSI.Process,
     CSI.rpicam_vid (CSI.env p) = None
     ∨ (∃ pr, CSI.rpicam_vid (CSI.env p) = Some pr
              ∧ CSI.running pr = false) →
     ∃ p' r,
       CSI.stream p = (p', r)
       ∧ (∀ response, r = Ok response →
            response = {| status := 500; mimetype := "text/html";
                          headers := [];
                          payload := Text "Camera failed to start" |})
       ∧ is_server_error (served r) = true
       ∧ multipart_chunks (served r) = [])
  ∧ (∀ int (p : Microscope.Process) r s,
       Microscope._camera_service p = Some r →
       Microscope.services p !! r = Some s →
       Microscope.camera_ok (s, Microscope.env p)
         = ((s, Microscope.env p), Ok false) →
       Microscope.stream int p =
         (p, Ok {| status := 200;
                   mimetype := "multipart/x-mixed-replace; boundary=frame";
                   headers := [];
                   payload := Chunks [] |})).
Proof.
  split.
  - intros p Hfail.
    unfold CSI.stream, bind, CSI.get_camera_service, CSI.CSICameraService_new.
    destruct (mkdir_exist_ok _ _) as [tree [[]|ex]].
    + unfold CSI.call. simpl. rewrite list_lookup_middle by done.
      rewrite csi_start_eq. simpl.
      destruct Hfail as [->|(pr & -> & Hpr)]; simpl; rewrite ?Hpr; simpl;
        eexists _, _; (split; [reflexivity|]);
        (split; [by intros ? [= <-]|done]).
    + eexists _, _. split; [reflexivity|]. split; [done|done].
  - intros int p r s Hg Hs Hok.
    rewrite microscope_camera_ok_eq in Hok.
    assert (Microscope.generate_stream (s, Microscope.env p)
            = ((s, Microscope.env p), Ok [])) as Hgen.
    { rewrite microscope_generate_stream_eq.
      destruct (Microscope.camera s) as [c|]; [|done].
      by assert (default false
                   (Microscope.handles
                      (Microscope.video (Microscope.env p)) !! c) = false)
        as -> by congruence. }
    unfold Microscope.stream.
    erewrite bind_ok; cycle 1.
    { unfold Microscope.get_camera_service. erewrite bind_ok by reflexivity.
      rewrite Hg. reflexivity. }
    erewrite bind_ok; cycle 1.
    { unfold Microscope.call. rewrite Hs, Hgen, list_insert_id by done.
      reflexivity. }
    by destruct p.
Qed.

End Stream.


(* ===================================================================== *)
(** ** Captures *)
(* ===================================================================== *)

Section Capture.
Import Posix Pathlib Flask Spec.
Context `{OpenCV}.



End Capture.

Section StreamRuns.
Import Posix Pathlib Flask Spec.

(** C9 fails in csi-camera.  With [rpicam-vid] writing two JPEG images
    to its pipe, the response of [/stream] declares
    [multipart/x-mixed-replace; boundary=frame] and its chunks are the
    bytes of the pipe as read: none starts with the boundary marker. *)
Theorem csi_stream_chunks_are_not_framed :
  ∃ p' response,
    CSI.stream csi_process = (p', Ok response)
    ∧ mimetype response = "multipart/x-mixed-replace; boundary=frame"
    ∧ multipart_chunks response = ["JFIF-image-0"; "JFIF-image-1"]
    ∧ Forall (fun chunk => String.prefix "--frame" chunk = false)
        (multipart_chunks response).
Proof.
  eexists _, _. split; [vm_compute; reflexivity|].
  split; [reflexivity|]. split; [reflexivity|].
  repeat constructor.
Qed.

(** The same frames through docker-microscope are framed. *)
Example microscope_stream_of_two_frames :
  ∃ st,
    @Microscope.generate_stream bench_cv
      (Microscope.set_camera (Some 0) bench_service,
       Microscope.set_handles [true]
         (Microscope.set_feed
            [(true, Some ("f0" : @Frame bench_cv));
             (true, Some ("f1" : @Frame bench_cv))]
            bench_env)) =
      (st, Ok ["--frame" +:+ CRLF +:+ "Content-Type: image/jpeg" +:+ CRLF
               +:+ CRLF +:+ "JFIFf0" +:+ CRLF;
               "--frame" +:+ CRLF +:+ "Content-Type: image/jpeg" +:+ CRLF
               +:+ CRLF +:+ "JFIFf1" +:+ CRLF]).
Proof. eexists. vm_compute. reflexivity. Qed.

(** The theorem of C6 on the bench machines. *)
Lemma stream_without_camera_run :
  (CSI.rpicam_vid (CSI.env csi_off_process) = None
   ∨ (∃ pr, CSI.rpicam_vid (CSI.env csi_off_process) = Some pr
            ∧ CSI.running pr = false))
  ∧ (∃ p' r,
       CSI.stream csi_off_process = (p', r)
       ∧ (∀ response, r = Ok response →
            response = {| status := 500; mimetype := "text/html";
                          headers := [];
                          payload := Text "Camera failed to start" |})
       ∧ is_server_error (served r) = true
       ∧ multipart_chunks (served r) = [])
  ∧ Microscope._camera_service bench_process = Some 0
  ∧ Microscope.services bench_process !! 0 = Some bench_service
  ∧ Microscope.camera_ok (bench_service, Microscope.env bench_process)
    = ((bench_service, Microscope.env bench_process), Ok false)
  ∧ Microscope.stream bench_int bench_process =
      (bench_process,
       Ok {| status := 200;
             mimetype := "multipart/x-mixed-replace; boundary=frame";
             headers := [];
             payload := Chunks [] |}).
Proof.
  pose proof (@stream_without_camera bench_cv) as [Hcsi Hmic].
  assert (CSI.rpicam_vid (CSI.env csi_off_process) = None
          ∨ (∃ pr, CSI.rpicam_vid (CSI.env csi_off_process) = Some pr
                   ∧ CSI.running pr = false)) as H1 by (left; reflexivity).
  assert (Microscope._camera_service bench_process = Some 0) as H2
    by reflexivity.
  assert (Microscope.services bench_process !! 0 = Some bench_service) as H3
    by reflexivity.
  assert (Microscope.camera_ok (bench_service, Microscope.env bench_process)
          = ((bench_service, Microscope.env bench_process), Ok false)) as H4
    by reflexivity.
  split; [exact H1|]. split; [exact (Hcsi csi_off_process H1)|].
  split; [exact H2|]. split; [exact H3|]. split; [exact H4|].
  exact (Hmic bench_int bench_process 0 bench_service H2 H3 H4).
Defined.

(** C6 as stated fails in docker-microscope: with a video device that
    cannot be opened, [start] fails at boot, and a [/stream] request is
    then answered with status 200, not with a server error. *)
Lemma microscope_stream_is_not_an_error :
  ∃ p1 p2 response,
    Microscope.openable (Microscope.video (Microscope.env dead_process))
      = false
    ∧ Microscope.main_camera bench_int dead_process = (p1, Ok tt)
    ∧ (∃ st, Microscope.call 0 Microscope.start p1 = (st, Ok false))
    ∧ Microscope.stream bench_int p1 = (p2, Ok response)
    ∧ status response = 200
    ∧ is_server_error response = false.
Proof.
  eexists _, _, _. split; [reflexivity|].
  split; [vm_compute; reflexivity|].
  split; [eexists; vm_compute; reflexivity|].
  split; [vm_compute; reflexivity|]. split; reflexivity.
Qed.

(** C5 as stated fails in docker-microscope when the device opens and
    the verifying read fails: [start] answers [False] and the handle is
    left open.  It also fails in csi-camera, where [start] answers [True]
    with nothing read from the camera: what [rpicam-vid] has written is
    all still in the pipe. *)
Lemma start_leaves_handle_open_and_reads_nothing :
  (∃ st,
     @Microscope.start bench_cv (bench_service, silent_env) = (st, Ok false)
     ∧ Microscope.camera_ok st = (st, Ok true))
  ∧ (∃ st pid p,
       CSI.start (csi_service, csi_env) = (st, Ok true)
       ∧ CSI.process (fst st) = Some pid
       ∧ CSI.table (snd st) !! pid = Some p
       ∧ CSI.stdout p = CSI.stdout bench_vid).
Proof.
  split.
  - eexists. split; reflexivity.
  - eexists _, _, _. repeat split; reflexivity.
Qed.

(** A [start] that succeeds on the bench machine, and a second one after
    a failed one. *)
Example microscope_start_and_retry :
  (∃ st, @Microscope.start bench_cv (bench_service, bench_env)
         = (st, Ok true)
         ∧ Microscope.feed (Microscope.video (snd st))
           = [(true, Some ("f4" : @Frame bench_cv))])
  ∧ (∃ st st',
       @Microscope.start bench_cv (bench_service, silent_env)
         = (st, Ok false)
       ∧ Microscope.start
           (fst st,
            Microscope.set_feed
              (Microscope.feed (Microscope.video bench_env)) (snd st))
         = (st', Ok true)).
Proof.
  split.
  - eexists. split; reflexivity.
  - eexists _, _. split; reflexivity.
Qed.


(** A capture on the bench machine: the file holds the encoded frame. *)
Example capture_image_writes_the_frame :
  ∃ st st' fp,
    @Microscope.start bench_cv (bench_service, bench_env) = (st, Ok true)
    ∧ Microscope.capture_image st = (st', Ok (Some fp))
    ∧ fp = ["app"; "captures"; "capture_20240131_120000.jpg"]
    ∧ lstat (Microscope.root (snd st')) fp = Some (KFile "JFIFf4").
Proof.
  eexists _, _, _. split; [reflexivity|].
  split; [vm_compute; reflexivity|]. split; [reflexivity|].
  vm_compute; reflexivity.
Qed.

End StreamRuns.


(* ===================================================================== *)
(** ** The service objects *)
(* ===================================================================== *)

Section Singleton.
Import Posix Pathlib Flask Spec.
Context `{OpenCV}.
Variable int : string → option Z.

Lemma get_camera_service_singleton (p p' : Microscope.Process) r :
  singleton p →
  Microscope.get_camera_service int p = (p', r) →
  singleton p'
  ∧ ∀ a, r = Ok a →
      a = 0 ∧ Microscope._camera_service p' = Some 0
      ∧ length (Microscope.services p') = 1.
Proof.
  destruct p as [svs g e]. unfold singleton. simpl.
  unfold Microscope.get_camera_service, bind, get. simpl.
  destruct g as [r0|].
  - intros [-> Hl] [= <- <-]. simpl. split; [done|]. by intros a [= <-].
  - intros ->. unfold Microscope.getenv, Microscope.int_. simpl.
    destruct (int _) as [w|]; simpl; [|by intros [= <- <-]].
    destruct (int _) as [h|]; simpl; [|by intros [= <- <-]].
    unfold Microscope.CameraService_new, bind, Microscope.outside. simpl.
    destruct (Microscope.Path_mkdir_exist_ok _ e) as [e1 [[]|ex]]; simpl.
    + intros [= <- <-]. simpl. split; [done|]. by intros a [= <-].
    + by intros [= <- <-].
Qed.

Lemma step_singleton (p p' : Microscope.Process) :
  step int p p' → singleton p → singleton p'.
Proof.
  intros [p0 p1 r Hg|A r m p0 p1 a Hc|A m p0 p1 a Ho] Hs.
  - by eapply get_camera_service_singleton.
  - revert Hc. unfold Microscope.call. unfold singleton in *.
    destruct (Microscope.services p0 !! r) as [s|]; [|by intros [= <- _]].
    destruct (m _) as [[s' e] a']. intros [= <- _]. simpl.
    destruct (Microscope._camera_service p0); [|by rewrite Hs].
    by rewrite length_insert.
  - revert Ho. unfold Microscope.outside.
    destruct (m _) as [e a']. by intros [= <- _].
Qed.

Lemma reachable_singleton (p p' : Microscope.Process) :
  rtc (step int) p p' → singleton p → singleton p'.
Proof. induction 1; eauto using step_singleton. Qed.

(** C2, as amended.  In docker-microscope the process starts without a
    service object; whatever it has done since, there is at most one,
    and every call of [get_camera_service] that returns, returns that
    one, which the first such call made.  In csi-camera
    [get_camera_service] is a factory: every call that returns, returns
    an object made by that call. *)
Theorem get_camera_service_instances :
  (∀ (e : Microscope.Env) (p : Microscope.Process),
     rtc (step int) (boot e) p →
     Microscope.services (boot e) = []
     ∧ length (Microscope.services p) ≤ 1
     ∧ ∀ p' r,
         Microscope.get_camera_service int p = (p', Ok r) →
         r = 0
         ∧ length (Microscope.services p') = 1
         ∧ Microscope.get_camera_service int p' = (p', Ok r))
  ∧ (∀ (p p' : CSI.Process) r,
       CSI.get_camera_service p = (p', Ok r) →
       r = length (CSI.services p)
       ∧ length (CSI.services p') = S (length (CSI.services p))
       ∧ take (length (CSI.services p)) (CSI.services p') = CSI.services p).
Proof.
  split.
  - intros e p Hreach.
    assert (singleton p) as Hs by (by eapply reachable_singleton).
    split; [done|]. split.
    + unfold singleton in Hs.
      destruct (Microscope._camera_service p) as [r|].
      * destruct Hs as [_ ->]. lia.
      * rewrite Hs. simpl. lia.
    + intros p' r Hg.
      destruct (get_camera_service_singleton _ _ _ Hs Hg) as [_ Hr].
      destruct (Hr r eq_refl) as (-> & Hglob & Hlen).
      split; [done|]. split; [done|].
      unfold Microscope.get_camera_service, bind, get. simpl.
      by rewrite Hglob.
  - intros p p' r. unfold CSI.get_camera_service, CSI.CSICameraService_new.
    destruct (mkdir_exist_ok _ _) as [tree [[]|ex]]; [|done].
    intros [= <- <-]. simpl. split; [done|].
    split; [rewrite length_app; simpl; lia|by rewrite take_app_length].
Qed.

End Singleton.

Section SingletonRuns.
Import Posix Pathlib Flask Spec.

(** The theorem of C2 on the bench machines, at boot. *)
Lemma get_camera_service_instances_run :
  rtc (step bench_int) (boot bench_env) (boot bench_env)
  ∧ (∃ p', Microscope.get_camera_service bench_int (boot bench_env)
           = (p', Ok 0))
  ∧ Microscope.services (boot bench_env) = []
  ∧ length (Microscope.services (boot bench_env)) ≤ 1
  ∧ (∀ p' r,
       Microscope.get_camera_service bench_int (boot bench_env)
         = (p', Ok r) →
       r = 0
       ∧ length (Microscope.services p') = 1
       ∧ Microscope.get_camera_service bench_int p' = (p', Ok r))
  ∧ (∃ p', CSI.get_camera_service csi_process = (p', Ok 0)).
Proof.
  pose proof (@get_camera_service_instances bench_cv bench_int)
    as [Hmic Hcsi].
  assert (rtc (step bench_int) (boot bench_env) (boot bench_env)) as H1
    by apply rtc_refl.
  split; [exact H1|].
  split; [eexists; vm_compute; reflexivity|].
  destruct (Hmic bench_env (boot bench_env) H1) as (Ha & Hb & Hc).
  split; [exact Ha|]. split; [exact Hb|]. split; [exact Hc|].
  eexists; vm_compute; reflexivity.
Defined.

(** C2 as stated fails in csi-camera: two calls of [get_camera_service]
    return two distinct objects, and both exist afterwards. *)
Lemma csi_get_camera_service_makes_two :
  ∃ p1 p2,
    CSI.get_camera_service csi_process = (p1, Ok 0)
    ∧ CSI.get_camera_service p1 = (p2, Ok 1)
    ∧ length (CSI.services p2) = 2.
Proof.
  eexists _, _. split; [vm_compute; reflexivity|].
  split; [vm_compute; reflexivity|]. reflexivity.
Qed.

End SingletonRuns.

(* ===================================================================== *)
(** ** Further properties of the camera services *)
(* ===================================================================== *)

Section CameraExtras.
Import Posix Pathlib Flask Spec.
Context `{OpenCV}.

(** X1.  With an open handle, [generate_stream] of docker-microscope yields
    one part for every frame read that the encoder accepts, in the order
    read, passes over the frames the encoder refuses, and returns at the
    first read that gives no frame; the answers of the device after that
    one are left for later reads. *)
Theorem microscope_stream_follows_the_device
    (s : Microscope.CameraService) (e : Microscope.Env) c :
  Microscope.camera s = Some c →
  Microscope.handles (Microscope.video e) !! c = Some true →
  Microscope.generate_stream (s, e) =
    ((s, Microscope.set_feed
           (answers_left (Microscope.feed (Microscope.video e))) e),
     Ok (Microscope.part <$>
           omap (fun f => imencode_jpg f 85)
             (frames_read (Microscope.feed (Microscope.video e))))).
Proof.
  intros Hc Hh. rewrite microscope_generate_stream_eq, Hc, Hh. simpl default.
  cbv iota. apply (microscope_generate_stream_loop s c _ Hc e Hh). lia.
Qed.

(** X3.  After [stop()], in docker-microscope, nothing is read from the
    device: [read_frame] and [capture_image] answer [None] and
    [generate_stream] yields nothing, each leaving the service, the
    device and the files as they are. *)
Theorem microscope_stopped_service_reads_nothing
    (s : Microscope.CameraService) (e : Microscope.Env) :
  ∃ st,
    Microscope.stop (s, e) = (st, Ok tt)
    ∧ Microscope.read_frame st = (st, Ok None)
    ∧ Microscope.generate_stream st = (st, Ok [])
    ∧ Microscope.capture_image st = (st, Ok None).
Proof.
  unfold Microscope.stop, bind, Microscope.self. simpl.
  destruct s as [dev w h [c|] dir]; simpl;
    (eexists; split; [reflexivity|]); repeat split.
Qed.

(** [read_frame] changes nothing but the answers the device has left. *)
Lemma microscope_read_frame_feed (s : Microscope.CameraService)
    (e : Microscope.Env) :
  ∃ answers frame,
    Microscope.read_frame (s, e)
    = ((s, Microscope.set_feed answers e), Ok frame).
Proof.
  destruct e as [rt lg [op fd hs] ck en].
  unfold Microscope.read_frame, bind, Microscope.self, Microscope.world,
    Microscope.read, bind, Microscope.isOpened, ret. simpl.
  destruct (Microscope.camera s) as [c|]; [|by exists fd, None].
  repeat match goal with
         | |- context [default false ?x] =>
             destruct (default false x); simpl
         end; try (by exists fd, None).
  destruct fd as [|[[|] fo] rest]; simpl;
    by (eexists _, _; unfold Microscope.set_feed, Microscope.set_video;
        simpl; reflexivity).
Qed.

Lemma microscope_generate_stream_loop_feed (s : Microscope.CameraService)
    n : ∀ e : Microscope.Env,
  ∃ answers chunks,
    Microscope.generate_stream_loop n (s, e)
    = ((s, Microscope.set_feed answers e), Ok chunks).
Proof.
  induction n as [|n IH]; intros e.
  { destruct e as [rt lg [op fd hs] ck en]. by exists fd, []. }
  simpl. unfold bind at 1.
  destruct (microscope_read_frame_feed s e) as (fd & [f|] & ->);
    [|by exists fd, []].
  destruct (IH (Microscope.set_feed fd e)) as (fd' & chunks & Hl).
  destruct (imencode_jpg f 85) as [buffer|].
  - unfold bind. rewrite Hl. by eexists _, _.
  - rewrite Hl. by eexists _, _.
Qed.

Lemma microscope_generate_stream_feed (s : Microscope.CameraService)
    (e : Microscope.Env) :
  ∃ answers chunks,
    Microscope.generate_stream (s, e)
    = ((s, Microscope.set_feed answers e), Ok chunks).
Proof.
  rewrite microscope_generate_stream_eq.
  destruct (Microscope.camera s) as [c|];
    [destruct (default false _)|];
    try (destruct e as [rt lg [op fd hs] ck en]; by exists fd, []).
  apply microscope_generate_stream_loop_feed.
Qed.

(** [capture_image] never raises and leaves the service object and the
    capture objects as they are. *)
Lemma microscope_capture_image_device (s : Microscope.CameraService)
    (e : Microscope.Env) :
  ∃ e' r,
    Microscope.capture_image (s, e) = ((s, e'), Ok r)
    ∧ same_device e e'
    ∧ (r = None ↔ ∃ st, Microscope.read_frame (s, e) = (st, Ok None))
    ∧ (∀ fp, r = Some fp →
         fp = joinpath (Microscope.capture_dir s)
                ("capture_" +:+ Microscope.clock e +:+ ".jpg")).
Proof.
  destruct (microscope_read_frame_feed s e) as (fd & fo & Hrf).
  unfold Microscope.capture_image. erewrite bind_ok by exact Hrf.
  destruct fo as [f|].
  - unfold bind, Microscope.self, Microscope.world, Microscope.imwrite,
      bind, Microscope.log, modify, ret. cbn [fst snd].
    destruct (imencode_jpg f 95) as [buffer|];
      [destruct (open_write _ _ _)|];
      (eexists _, _; split; [reflexivity|]; split; [done|];
       split; [split; [done|intros [st Hst]; congruence]|];
       by intros fp [= <-]).
  - eexists _, _. split; [reflexivity|]. split; [done|].
    split; [split; eauto|done].
Qed.


End CameraExtras.

Section CsiExtras.
Import Posix Pathlib Flask Spec.




(** X18.  [/capture] of csi-camera tells of a capture only when there is one:
    an answer of success is given only when [rpicam-still] ended with
    status 0 and the file named after the time of the call exists when
    the handler looks; every other answer is the failure of status 500.
    When [rpicam-still] cannot be run the handler raises. *)
Theorem csi_capture_success_means_a_file (p : CSI.Process) :
  let fp := joinpath (parts "/app/captures")
              ("csi_capture_" +:+ CSI.clock (CSI.env p) +:+ ".jpg") in
  ∃ p' r,
    CSI.capture p = (p', r)
    ∧ (∀ response, r = Ok response →
         (response =
            jsonify [("success", JBool true); ("filename", JStr (name fp));
                     ("path", JStr (Microscope.str fp))] 200
          ∧ exists_stat (CSI.root (CSI.env p')) fp = true
          ∧ ∃ run, CSI.rpicam_still (CSI.env p) = Some run
                   ∧ CSI.returncode run = 0)
         ∨ response = jsonify [("success", JBool false)] 500)
    ∧ (CSI.rpicam_still (CSI.env p) = None → ∃ ex, r = Raise ex).
Proof.
  destruct p as [svs e]. intros fp. cbn [CSI.env] in fp.
  unfold CSI.capture, bind, CSI.get_camera_service, CSI.CSICameraService_new.
  cbn [CSI.env CSI.services].
  destruct (mkdir_exist_ok _ _) as [tree [[]|ex]]; cycle 1.
  { eexists _, _. split; [reflexivity|]. split; [done|]. eauto. }
  unfold CSI.call at 1. cbn [CSI.env CSI.services].
  rewrite list_lookup_middle by done.
  unfold CSI.capture_image, bind, try_except, CSI.self, CSI.world,
    CSI.run_rpicam_still, ret, raise. cbn [fst snd].
  cbn [CSI.rpicam_still CSI.set_root CSI.clock CSI.capture_dir].
  fold fp.
  destruct (CSI.rpicam_still e) as [run|] eqn:Hrun; cycle 1.
  { eexists _, _. split; [reflexivity|]. split; [done|]. eauto. }
  case_bool_decide as Hrc; cbn [CSI.env CSI.services].
  - match goal with
    | |- context [exists_stat ?r fp] =>
        destruct (exists_stat r fp) eqn:Hex
    end; eexists _, _; (split; [reflexivity|]);
      (split; [|done]); intros response [= <-].
    + left. split; [done|]. split; [exact Hex|]. by exists run.
    + by right.
  - eexists _, _. split; [reflexivity|]. split; [|done].
    intros response [= <-]. by right.
Qed.

End CsiExtras.

(* ===================================================================== *)
(** ** Further properties of the capture store *)
(* ===================================================================== *)

Section StoreExtras.
Import Posix Pathlib Flask Spec Microscope.
Context `{OpenCV}.

Lemma reads_only_refl (e : Env) : reads_only e e.
Proof. by repeat split. Qed.

Lemma reads_only_trans (e1 e2 e3 : Env) :
  reads_only e1 e2 → reads_only e2 e3 → reads_only e1 e3.
Proof.
  intros (?&?&?&?) (?&?&?&?). repeat split; congruence.
Qed.

Lemma Path_resolve_eq p (e : Env) :
  ∃ e1, Path_resolve p e = (e1, resolve (root e) p) ∧ reads_only e e1.
Proof.
  unfold Path_resolve, bind, log, modify. simpl.
  eexists. split; [reflexivity|]. by repeat split.
Qed.

Lemma Path_exists_eq p (e : Env) :
  ∃ e1, Path_exists p e = (e1, Ok (exists_ (root e) p)) ∧ reads_only e e1.
Proof.
  unfold Path_exists, bind, log, modify. simpl.
  eexists. split; [reflexivity|]. by repeat split.
Qed.

Lemma zip_write_eq zf p arcname (e : Env) :
  ∃ e1 r, zip_write zf p arcname e = (e1, r) ∧ reads_only e e1.
Proof.
  unfold zip_write, bind, log, modify. simpl.
  eexists _, _. split; [reflexivity|]. by repeat split.
Qed.

Lemma os_remove_eq p (e : Env) :
  ∃ e1,
    reads_only e e1
    ∧ os_remove p e =
        match unlink (root e) p with
        | Some r => (set_root r e1, Ok tt)
        | None => (e1, Raise OSError)
        end.
Proof.
  unfold os_remove, bind, log, modify. simpl.
  eexists. split; [|reflexivity]. by repeat split.
Qed.

Lemma confined_refl cd root : confined cd root root.
Proof. intros q. by left. Qed.

Lemma confined_trans cd r1 r2 r3 :
  confined cd r1 r2 → confined cd r2 r3 → confined cd r1 r3.
Proof.
  intros H12 H23 q.
  destruct (H23 q) as [->|(-> & ? & ?)]; [|by right].
  apply H12.
Qed.

Lemma confined_unlink cd root r root' :
  unlink root r = Some root' → is_relative_to r cd = true →
  suffix r = ".jpg" → confined cd root root'.
Proof.
  intros Hu Hrel Hs q. rewrite (lstat_unlink _ _ _ q Hu).
  case_bool_decide as Hp; [|by left].
  destruct (decide (q = r)) as [->|Hne]; [by right|].
  left. symmetry. by eapply lstat_below_unlinked.
Qed.

(** The loop of [batch_download] changes no file, whatever the names
    are and also when it raises. *)
Lemma batch_download_loop_total cd files : ∀ (e : Env) zf,
  ∃ e' r, batch_download_loop cd files zf e = (e', r) ∧ reads_only e e'.
Proof.
  induction files as [|f files IH]; intros e zf.
  { exists e. eexists. split; [reflexivity|apply reads_only_refl]. }
  simpl. unfold bind at 1.
  destruct (Path_resolve_eq (joinpath cd f) e) as (e1 & -> & H1).
  destruct (resolve (root e) _) as [r|ex]; [|by eexists _, _].
  destruct (is_relative_to r cd); simpl.
  - unfold bind at 1.
    destruct (Path_exists_eq r e1) as (e2 & -> & H2).
    destruct (exists_ (root e1) r && _).
    + unfold bind at 1.
      destruct (zip_write_eq zf r f e2) as (e3 & [zf'|ex] & -> & H3).
      * destruct (IH e3 zf') as (e' & r' & -> & H').
        eexists _, _. split; [reflexivity|].
        eauto using reads_only_trans.
      * eexists _, _. split; [reflexivity|].
        eauto using reads_only_trans.
    + destruct (IH e2 zf) as (e' & r' & -> & H').
      eexists _, _. split; [reflexivity|]. eauto using reads_only_trans.
  - destruct (IH e1 zf) as (e' & r' & -> & H').
    eexists _, _. split; [reflexivity|]. eauto using reads_only_trans.
Qed.

(** The loop of [batch_delete] removes nothing but entries with the
    extension [.jpg] inside the capture directory it is given, whatever
    the names are and also when it raises. *)
Lemma batch_delete_loop_total cd files : ∀ (e : Env) deleted,
  ∃ e' r,
    batch_delete_loop cd files deleted e = (e', r)
    ∧ video e' = video e ∧ clock e' = clock e ∧ environ e' = environ e
    ∧ confined cd (root e) (root e').
Proof.
  induction files as [|f files IH]; intros e deleted.
  { exists e. eexists. split; [reflexivity|].
    repeat split. apply confined_refl. }
  simpl. unfold bind at 1.
  destruct (Path_resolve_eq (joinpath cd f) e) as (e1 & -> & Hr1 & Hv1 & Hc1 & Hn1).
  destruct (resolve (root e) _) as [r|ex].
  2:{ eexists _, _. split; [reflexivity|]. rewrite Hr1.
      repeat split; try done. apply confined_refl. }
  destruct (is_relative_to r cd) eqn:Hrel; simpl.
  - unfold bind at 1.
    destruct (Path_exists_eq r e1) as (e2 & -> & Hr2 & Hv2 & Hc2 & Hn2).
    destruct (exists_ (root e1) r); simpl.
    + case_bool_decide as Hs; simpl.
      * unfold bind at 1, try_except, bind.
        destruct (os_remove_eq r e2) as (e3 & (Hr3 & Hv3 & Hc3 & Hn3) & ->).
        rewrite Hr2, Hr1.
        destruct (unlink (root e) r) as [root'|] eqn:Hu; simpl.
        -- destruct (IH (set_root root' e3) (S deleted))
             as (e' & r' & -> & Hv' & Hc' & Hn' & Hconf).
           simpl in *. eexists _, _. split; [reflexivity|].
           repeat split; try congruence.
           eapply confined_trans; [|exact Hconf].
           by eapply confined_unlink.
        -- destruct (IH e3 deleted)
             as (e' & r' & -> & Hv' & Hc' & Hn' & Hconf).
           eexists _, _. split; [reflexivity|].
           repeat split; try congruence.
           by rewrite Hr3, Hr2, Hr1 in Hconf.
      * destruct (IH e2 deleted)
          as (e' & r' & -> & Hv' & Hc' & Hn' & Hconf).
        eexists _, _. split; [reflexivity|].
        repeat split; try congruence. by rewrite Hr2, Hr1 in Hconf.
    + destruct (IH e2 deleted)
        as (e' & r' & -> & Hv' & Hc' & Hn' & Hconf).
      eexists _, _. split; [reflexivity|].
      repeat split; try congruence. by rewrite Hr2, Hr1 in Hconf.
  - destruct (IH e1 deleted)
      as (e' & r' & -> & Hv' & Hc' & Hn' & Hconf).
    eexists _, _. split; [reflexivity|].
    repeat split; try congruence. by rewrite Hr1 in Hconf.
Qed.

Lemma get_capture_total f (e : Env) :
  ∃ e' r, get_capture f e = (e', r) ∧ reads_only e e'.
Proof.
  unfold get_capture. unfold bind at 1. unfold try_except.
  unfold bind at 1.
  destruct (Path_resolve_eq (joinpath (parts "/app/captures") f) e)
    as (e1 & -> & H1).
  destruct (resolve (root e) _) as [r|ex]; cycle 1.
  { destruct (is_ValueError_or_OSError ex); by eexists _, _. }
  unfold bind at 1.
  destruct (Path_resolve_eq (parts "/app/captures") e1) as (e2 & -> & H2).
  destruct (resolve (root e1) _) as [base|ex]; cycle 1.
  { destruct (is_ValueError_or_OSError ex); eexists _, _;
      (split; [reflexivity|]); eauto using reads_only_trans. }
  destruct (is_relative_to r base); simpl.
  - unfold bind at 1.
    destruct (Path_exists_eq r e2) as (e3 & -> & H3).
    destruct (negb _ || _); eexists _, _; (split; [reflexivity|]);
      eauto using reads_only_trans.
  - eexists _, _. split; [reflexivity|]. eauto using reads_only_trans.
Qed.

Lemma batch_download_total data (e : Env) :
  ∃ e' r, batch_download data e = (e', r) ∧ reads_only e e'.
Proof.
  unfold batch_download. case_bool_decide.
  { eexists _, _. split; [reflexivity|apply reads_only_refl]. }
  unfold bind at 1.
  destruct (Path_resolve_eq (parts "/app/captures") e) as (e1 & -> & H1).
  destruct (resolve (root e) _) as [cd|ex]; [|by eexists _, _].
  unfold bind at 1.
  destruct (batch_download_loop_total cd (default [] (files data)) e1 [])
    as (e' & [zf|ex] & -> & H'); eexists _, _; (split; [reflexivity|]);
    eauto using reads_only_trans.
Qed.

Lemma batch_delete_total data (e : Env) :
  ∃ e' r,
    batch_delete data e = (e', r)
    ∧ video e' = video e ∧ clock e' = clock e ∧ environ e' = environ e
    ∧ match resolve (root e) (parts "/app/captures") with
      | Ok cd => confined cd (root e) (root e')
      | Raise _ => root e' = root e
      end.
Proof.
  unfold batch_delete. case_bool_decide.
  { eexists _, _. split; [reflexivity|]. repeat split.
    destruct (resolve _ _); [apply confined_refl|done]. }
  unfold bind at 1.
  destruct (Path_resolve_eq (parts "/app/captures") e)
    as (e1 & -> & Hr1 & Hv1 & Hc1 & Hn1).
  destruct (resolve (root e) _) as [cd|ex]; [|by eexists _, _].
  unfold bind at 1.
  destruct (batch_delete_loop_total cd (default [] (files data)) e1 0)
    as (e' & [n|ex] & -> & Hv' & Hc' & Hn' & Hconf);
    rewrite Hr1 in Hconf; eexists _, _; (split; [reflexivity|]);
    repeat split; first [exact Hconf|congruence].
Qed.

(** X8.  Whatever is requested of it, and also when it raises on the way,
    [batch_delete] creates and modifies nothing, removes nothing outside
    the capture directory, links resolved, and removes nothing whose
    extension is not [.jpg]: a path that is not as before is gone, lies
    inside the resolved capture directory and has the extension. *)
Theorem batch_delete_is_confined (data : Request) (e : Env) :
  ∃ e' r,
    batch_delete data e = (e', r)
    ∧ (∀ q, lstat (root e') q = lstat (root e) q ∨ lstat (root e') q = None)
    ∧ (∀ q, suffix q ≠ ".jpg" → lstat (root e') q = lstat (root e) q)
    ∧ (∀ q cd, resolve (root e) (parts "/app/captures") = Ok cd →
               ¬ cd `prefix_of` q → lstat (root e') q = lstat (root e) q)
    ∧ (∀ ex, resolve (root e) (parts "/app/captures") = Raise ex →
             root e' = root e).
Proof.
  destruct (batch_delete_total data e) as (e' & r & He & _ & _ & _ & Hc).
  exists e', r. split; [done|].
  destruct (resolve (root e) _) as [cd|ex].
  - split; [|split; [|split]]; [| | |done].
    + intros q. destruct (Hc q) as [?|(?&_)]; auto.
    + intros q Hs. by destruct (Hc q) as [?|(_&_&?)].
    + intros q cd' [= <-] Hp. destruct (Hc q) as [?|(_&Hrel&_)]; [done|].
      by apply bool_decide_eq_true in Hrel.
  - rewrite Hc. split; [by left|]. split; [done|]. split; [done|done].
Qed.

(** X10.  The view of one capture, the batch export and the listing never
    change a file, the camera, the clock or the environment, whatever is
    requested and also when they raise. *)
Theorem views_change_no_file (e : Env) :
  (∀ filename, reads_only e (get_capture filename e).1)
  ∧ (∀ data, reads_only e (batch_download data e).1)
  ∧ (list_captures e).1 = e.
Proof.
  split; [|split; [|done]].
  - intros f. by destruct (get_capture_total f e) as (e' & r & -> & ?).
  - intros d. by destruct (batch_download_total d e) as (e' & r & -> & ?).
Qed.

End StoreExtras.

(* ===================================================================== *)
(** ** The routes of docker-microscope *)
(* ===================================================================== *)

Section RouteExtras.
Import Posix Pathlib Flask Spec Microscope.
Context `{OpenCV}.
Variable int : string → option Z.
Variable index_html : string.
Variable credentials : Auth.Credentials.

(** [main()] leaves the process with its one service object, whose
    capture object is open exactly when the device could be opened. *)
Lemma main_camera_started (e : Env) p0 :
  main_camera int (boot e) = (p0, Ok tt) →
  started (openable (video e)) p0.
Proof.
  unfold main_camera, bind, get_camera_service, get, getenv, int_, bind,
    CameraService_new, bind, outside, Path_mkdir_exist_ok, bind, log,
    modify, ret, raise, boot. simpl.
  destruct (int _) as [w|]; simpl; [|done].
  destruct (int _) as [h|]; simpl; [|done].
  destruct (mkdir_exist_ok _ _) as [tree [[]|ex]]; simpl; [|done].
  unfold call. simpl. rewrite microscope_start_eq. simpl.
  destruct (openable (video e)); simpl; intros [= <-];
    eexists _, _; simpl; (split; [done|]); (split; [done|]);
    (split; [done|]); by apply list_lookup_middle.
Qed.

Lemma started_get_camera_service b (p : Process) :
  started b p → get_camera_service int p = (p, Ok 0).
Proof.
  intros (s & c & Hg & _). unfold get_camera_service, bind, get.
  by rewrite Hg.
Qed.

(** On a started process [/health] and [/status] tell whether the
    capture object is open, and change nothing. *)
Lemma started_health b (p : Process) :
  started b p →
  health int p =
    (p, Ok (jsonify
              [("status", JStr (if b then "healthy" else "unhealthy"));
               ("camera", JStr (if b then "ok" else "error"))]
              (if b then 200 else 503)))
  ∧ status_ int p = (p, Ok (jsonify [("camera_ready", JBool b)] 200)).
Proof.
  intros Hst. pose proof (started_get_camera_service b p Hst) as Hget.
  destruct Hst as (s & c & Hg & Hs & Hc & Hh).
  assert (call 0 camera_ok p = (p, Ok b)) as Hcall.
  { unfold call. rewrite Hs. simpl. rewrite microscope_camera_ok_eq.
    rewrite Hc, Hh. simpl. destruct p; simpl in *; by subst. }
  unfold health, status_.
  split; erewrite bind_ok by exact Hget; by erewrite bind_ok by exact Hcall.
Qed.

(** A method that leaves the service object and the capture objects as
    they are keeps the process started. *)
Lemma started_call {A} b (p : Process) (m : M Self A) :
  started b p →
  (∀ s e, ∃ e' a, m (s, e) = ((s, e'), a) ∧ same_device e e') →
  started b (call 0 m p).1
  ∧ handles (video (env (call 0 m p).1)) = handles (video (env p)).
Proof.
  intros (s & c & Hg & Hs & Hc & Hh) Hm.
  unfold call. rewrite Hs. simpl.
  destruct (Hm s (env p)) as (e' & a & -> & Hd & _). simpl.
  split; [|done]. exists s, c. simpl. rewrite Hd. done.
Qed.

Lemma started_outside {A} b (p : Process) (m : M Env A) :
  started b p →
  (∀ e, video (m e).1 = video e) →
  started b (outside m p).1
  ∧ handles (video (env (outside m p).1)) = handles (video (env p)).
Proof.
  intros (s & c & Hg & Hs & Hc & Hh) Hm. unfold outside.
  specialize (Hm (env p)). destruct (m (env p)) as [e' a]. simpl in *.
  rewrite Hm. split; [|done]. exists s, c. simpl. by rewrite Hm.
Qed.

(** No request makes or releases a capture object. *)
Lemma started_view b (p : Process) r :
  started b p →
  started b (view int index_html r p).1
  ∧ handles (video (env (view int index_html r p).1))
    = handles (video (env p)).
Proof.
  intros Hst. pose proof (started_get_camera_service b p Hst) as Hget.
  destruct r; cbn [view].
  - done.
  - unfold stream. erewrite bind_ok by exact Hget.
    pose proof (started_call b p generate_stream Hst) as Hcall.
    unfold bind. destruct (call 0 generate_stream p) as [p' [chunks|ex]];
      simpl in *; apply Hcall; intros s e;
      destruct (microscope_generate_stream_feed s e) as (fd & ch & ->);
      by eexists _, _.
  - unfold capture. erewrite bind_ok by exact Hget.
    pose proof (started_call b p capture_image Hst) as Hcall.
    unfold bind. destruct (call 0 capture_image p) as [p' [[fp|]|ex]];
      simpl in *; apply Hcall; intros s e;
      destruct (microscope_capture_image_device s e)
        as (e' & r & -> & Hd & _); by eexists _, _.
  - by rewrite (proj2 (started_health b p Hst)).
  - by rewrite (proj1 (started_health b p Hst)).
  - by apply started_outside.
  - apply started_outside; [done|]. intros e.
    by destruct (get_capture_total filename e) as (e' & r & -> & _ & ? & _).
  - apply started_outside; [done|]. intros e.
    by destruct (batch_download_total data e) as (e' & r & -> & _ & ? & _).
  - apply started_outside; [done|]. intros e.
    by destruct (batch_delete_total data e) as (e' & r & -> & ? & _).
Qed.

Lemma started_app b (p : Process) authorization r :
  started b p →
  started b (app int index_html credentials authorization r p).1
  ∧ handles
      (video (env (app int index_html credentials authorization r p).1))
    = handles (video (env p)).
Proof.
  intros Hst. pose proof (started_view b p r Hst) as Hv.
  unfold app, Auth.requires_auth.
  destruct (protected r); [destruct authorization as [auth|]|];
    [destruct (negb _)| |]; try done;
    unfold bind; by destruct (view int index_html r p) as [p' [a|ex]].
Qed.

Lemma started_serves b (p p' : Process) :
  rtc (serves int index_html credentials) p p' →
  started b p →
  started b p' ∧ handles (video (env p')) = handles (video (env p)).
Proof.
  induction 1 as [|p p1 p' Hs _ IH]; [done|].
  intros Hst. destruct Hs as [authorization r p].
  destruct (started_app b p authorization r Hst) as [Hst1 Hh1].
  destruct (IH Hst1) as [Hst' Hh']. split; [done|congruence].
Qed.

(** X5.  What [/health] and [/status] answer is decided when the server
    starts: once [main()] has made the service and called [start], then
    after any requests, with or without credentials, [/health] answers
    200 and [healthy] if the device could be opened at the start and 503
    and [unhealthy] if it could not, and [/status] tells the same; no
    request opens or releases the device, and a device that opened but
    delivers no frame counts as healthy. *)
Theorem health_is_decided_at_start_up (e : Env) (p0 p : Process) :
  main_camera int (boot e) = (p0, Ok tt) →
  rtc (serves int index_html credentials) p0 p →
  let b := openable (video e) in
  health int p =
    (p, Ok (jsonify
              [("status", JStr (if b then "healthy" else "unhealthy"));
               ("camera", JStr (if b then "ok" else "error"))]
              (if b then 200 else 503)))
  ∧ status_ int p = (p, Ok (jsonify [("camera_ready", JBool b)] 200)).
Proof.
  intros Hmain Hreq b. apply started_health.
  eapply started_serves; [done|]. by apply main_camera_started.
Qed.

(** With the capture object not open, [/capture] fails and [/stream]
    is empty, and neither changes anything. *)
Lemma started_closed (p : Process) :
  started false p →
  capture int p =
    (p, Ok (jsonify [("status", JStr "error");
                     ("message", JStr "Capture failed")] 500))
  ∧ stream int p =
      (p, Ok {| status := 200;
                mimetype := "multipart/x-mixed-replace; boundary=frame";
                headers := [];
                payload := Chunks [] |}).
Proof.
  intros Hst. pose proof (started_get_camera_service _ p Hst) as Hget.
  destruct Hst as (s & c & Hg & Hs & Hc & Hh).
  assert (call 0 capture_image p = (p, Ok None)) as Hcap.
  { unfold call. rewrite Hs. simpl.
    unfold capture_image, read_frame, bind, self, world, isOpened, ret.
    simpl. rewrite Hc. simpl. rewrite Hh. simpl.
    destruct p; simpl in *; by subst. }
  assert (call 0 generate_stream p = (p, Ok [])) as Hgen.
  { unfold call. rewrite Hs. simpl.
    rewrite microscope_generate_stream_eq, Hc, Hh. simpl.
    destruct p; simpl in *; by subst. }
  unfold capture, stream.
  split; erewrite bind_ok by exact Hget.
  - by erewrite bind_ok by exact Hcap.
  - by erewrite bind_ok by exact Hgen.
Qed.

(** X6.  A device that could not be opened when the server started stays
    out of use until the server is started again: after any requests,
    every [/capture] is answered with the error of status 500 and every
    [/stream] with an empty body, and no request tries to open the device
    again. *)
Theorem closed_device_is_never_reopened (e : Env) (p0 p : Process) :
  main_camera int (boot e) = (p0, Ok tt) →
  openable (video e) = false →
  rtc (serves int index_html credentials) p0 p →
  capture int p =
    (p, Ok (jsonify [("status", JStr "error");
                     ("message", JStr "Capture failed")] 500))
  ∧ stream int p =
      (p, Ok {| status := 200;
                mimetype := "multipart/x-mixed-replace; boundary=frame";
                headers := [];
                payload := Chunks [] |})
  ∧ handles (video (env p)) = handles (video e) ++ [false].
Proof.
  intros Hmain Hop Hreq.
  assert (started false p0) as Hst0.
  { rewrite <- Hop. by apply main_camera_started. }
  destruct (started_serves false p0 p Hreq Hst0) as [Hst Hkeep].
  destruct (started_closed p Hst) as [Hcap Hstr].
  split; [done|]. split; [done|].
  rewrite Hkeep. clear Hcap Hstr Hst Hst0 Hkeep Hreq. revert Hmain.
  unfold main_camera, bind, get_camera_service, get, getenv, int_, bind,
    CameraService_new, bind, outside, Path_mkdir_exist_ok, bind, log,
    modify, ret, raise, boot. simpl.
  destruct (int _) as [w|]; simpl; [|done].
  destruct (int _) as [h|]; simpl; [|done].
  destruct (mkdir_exist_ok _ _) as [tree [[]|ex]]; simpl; [|done].
  unfold call. simpl. rewrite microscope_start_eq. simpl.
  rewrite Hop. simpl. by intros [= <-].
Qed.

(** X7.  Of the routes all but [/health] are closed to a request without the
    one accepted authorization: the request is answered with status 401
    and the challenge, and the view is not run, so that the process and
    the world are as before.  With the user name and the password the
    server was started with, the answer is that of the view. *)
Theorem app_requires_credentials authorization r (p : Process) :
  protected r = true →
  let accepted_authorization :=
    Some {| Auth.username := Some (Auth.USERNAME credentials);
            Auth.password := Some (Auth.PASSWORD credentials) |} in
  (authorization = accepted_authorization →
     app int index_html credentials authorization r p =
       (let* a := view int index_html r in ret (inr a)) p)
  ∧ (authorization ≠ accepted_authorization →
       app int index_html credentials authorization r p =
         (p, Ok (inl {| status := 401; mimetype := "text/html";
                        headers :=
                          [("WWW-Authenticate",
                            "Basic realm=" +:+ String Auth.DQUOTE "Microscope"
                            +:+ String Auth.DQUOTE "")];
                        payload := Text "Authentication required" |}))).
Proof.
  intros Hr acc. unfold app, Auth.requires_auth, Auth.check_auth. rewrite Hr.
  split.
  - intros ->. subst acc. simpl.
    by rewrite !bool_decide_eq_true_2 by done.
  - intros Hne. destruct authorization as [[u pw]|]; [|done]. simpl.
    case_bool_decide as Hu; [|done]. case_bool_decide as Hp; [|done].
    simpl in *. destruct Hne. subst acc. by rewrite Hu, Hp.
Qed.

End RouteExtras.

(* ===================================================================== *)
(** ** The listing of the captures *)
(* ===================================================================== *)

Section StringOrder.
Import Pathlib.

Lemma ascii_compare_eq c1 c2 : Ascii.compare c1 c2 = Eq → c1 = c2.
Proof.
  unfold Ascii.compare. intros Hc%N.compare_eq.
  by rewrite <- (ascii_N_embedding c1), <- (ascii_N_embedding c2), Hc.
Qed.

Lemma string_compare_trans c : ∀ s1 s2 s3,
  String.compare s1 s2 = c → String.compare s2 s3 = c →
  c ≠ Eq → String.compare s1 s3 = c.
Proof.
  induction s1 as [|c1 s1 IH]; intros [|c2 s2] [|c3 s3]; simpl;
    try congruence.
  destruct (Ascii.compare c1 c2) eqn:H12.
  - apply ascii_compare_eq in H12 as ->.
    destruct (Ascii.compare c2 c3); [apply IH|congruence..].
  - intros <-. destruct (Ascii.compare c2 c3) eqn:H23.
    + apply ascii_compare_eq in H23 as <-. by rewrite H12.
    + unfold Ascii.compare in *. rewrite N.compare_lt_iff in *.
      assert (N_of_ascii c1 < N_of_ascii c3)%N as Hlt by lia.
      apply N.compare_lt_iff in Hlt. by rewrite Hlt.
    + congruence.
  - intros <-. destruct (Ascii.compare c2 c3) eqn:H23.
    + apply ascii_compare_eq in H23 as <-. by rewrite H12.
    + congruence.
    + unfold Ascii.compare in *. rewrite N.compare_gt_iff in *.
      assert (N_of_ascii c3 < N_of_ascii c1)%N as Hlt by lia.
      apply N.compare_gt_iff in Hlt. by rewrite Hlt.
Qed.

Lemma string_compare_eq s1 : ∀ s2, String.compare s1 s2 = Eq → s1 = s2.
Proof.
  induction s1 as [|c1 s1 IH]; intros [|c2 s2]; simpl; try done.
  destruct (Ascii.compare c1 c2) eqn:H12; try done.
  apply ascii_compare_eq in H12 as ->. by intros ->%IH.
Qed.

#[local] Instance descending_total : Total descending.
Proof.
  intros a b. unfold descending. destruct (String.leb_total b a); auto.
Qed.

#[local] Instance descending_antisymm : AntiSymm (=) descending.
Proof. intros a b Hab Hba. by apply String.leb_antisym. Qed.

#[local] Instance descending_trans : Transitive descending.
Proof.
  intros a b c. unfold descending, String.leb.
  destruct (String.compare b a) eqn:Hba; [|intros _|done].
  - apply string_compare_eq in Hba as ->. done.
  - destruct (String.compare c b) eqn:Hcb; [|intros _|done].
    + apply string_compare_eq in Hcb as ->. by rewrite Hba.
    + by rewrite (string_compare_trans Lt c b a).
Qed.

(** [sorted(..., reverse=True)] gives the same names, each at least as
    large as all that follow. *)
Lemma sorted_reverse_sorted l : StronglySorted descending (sorted_reverse l).
Proof. apply StronglySorted_merge_sort; apply _. Qed.

Lemma sorted_reverse_perm l : sorted_reverse l ≡ₚ l.
Proof. apply merge_sort_Permutation. Qed.

(** Two listings of the same names are the same list. *)
Lemma sorted_reverse_unique l1 l2 :
  NoDup l1 → NoDup l2 → (∀ n, n ∈ l1 ↔ n ∈ l2) →
  sorted_reverse l1 = sorted_reverse l2.
Proof.
  intros H1 H2 Heq. apply (StronglySorted_unique descending);
    [apply sorted_reverse_sorted..|].
  rewrite !sorted_reverse_perm. by apply NoDup_Permutation.
Qed.


Lemma endswith_spec ext s :
  endswith ext s = true ↔ ∃ pre, s = pre +:+ ext.
Proof.
  induction s as [|c s IH]; simpl.
  - rewrite orb_false_r, bool_decide_eq_true. split.
    + intros <-. by exists "".
    + intros ([|c pre] & Hp); [done|]. simpl in Hp. discriminate.
  - rewrite orb_true_iff, bool_decide_eq_true, IH. split.
    + intros [<-|[pre ->]]; [by exists ""|]. by exists (String c pre).
    + intros ([|c' pre] & Hp); [by left|]. simpl in Hp.
      injection Hp as -> ->. right. by exists pre.
Qed.

End StringOrder.

Section ListingExtras.
Import Posix Pathlib Flask Spec Microscope.
Context `{OpenCV}.

Lemma lstat_snoc d : ∀ root n,
  lstat root (d ++ [n]) =
    match descend root d with
    | Some (Dir _ es) => kind_of <$> es !! n
    | _ => None
    end.
Proof.
  unfold lstat. induction d as [|c d IH]; intros root n; simpl.
  - destruct root as [|w es|]; try done. by destruct (es !! n).
  - destruct root as [|w es|]; try done.
    destruct (es !! c) as [n'|]; [apply IH|done].
Qed.

Lemma name_snoc p n : name (p ++ [n]) = n.
Proof. unfold name. by rewrite last_snoc. Qed.

(** The entries of the directory a path leads to. *)
Lemma elem_of_entries root p n :
  n ∈ entries root p ↔
    ∃ d w, namei root p = Some d ∧ lstat root d = Some (KDir w)
           ∧ is_Some (lstat root (d ++ [n])).
Proof.
  unfold entries. destruct (namei root p) as [d|]; simpl; cycle 1.
  { split; [set_solver|]. by intros (d & w & ? & _). }
  split.
  - destruct (descend root d) as [[|w es|]|] eqn:Hd; try set_solver.
    intros Hn%elem_of_dom. exists d, w. split; [done|]. unfold lstat at 1.
    rewrite Hd. split; [done|]. rewrite lstat_snoc, Hd.
    by apply fmap_is_Some.
  - intros (d' & w & [= <-] & Hk & Hn). unfold lstat in Hk.
    rewrite lstat_snoc in Hn.
    destruct (descend root d) as [[|w' es|]|]; try done;
      try (by destruct Hn).
    apply elem_of_dom. by apply fmap_is_Some in Hn.
Qed.

(** The listing: the names of the capture directory that end in
    [.jpg], largest first. *)
Lemma list_captures_spec (e : Env) :
  ∃ l,
    list_captures e = (e, Ok l)
    ∧ StronglySorted descending l ∧ NoDup l
    ∧ ∀ n, n ∈ l ↔
           endswith ".jpg" n = true
           ∧ n ∈ entries (root e) ["app"; "captures"].
Proof.
  unfold list_captures. eexists. split; [reflexivity|].
  split; [apply sorted_reverse_sorted|].
  change (parts "/app/captures") with ["app"; "captures"].
  unfold glob_star, is_dir, stat, scandir, entries.
  change (existsb has_nul ["app"; "captures"]) with false. cbn [negb andb].
  destruct (namei (root e) ["app"; "captures"]) as [d|]; simpl; cycle 1.
  { split; [constructor|]. intros n. split; [by intros ?%elem_of_nil|].
    intros [_ Hn]. set_solver. }
  unfold lstat. destruct (descend (root e) d) as [[|w es|]|]; simpl;
    try (split; [constructor|]; intros n;
         split; [by intros ?%elem_of_nil|]; intros [_ Hn]; set_solver).
  rewrite <- list_fmap_compose.
  rewrite (list_fmap_ext _ id)
    by (intros i n _; apply (name_snoc ["app"; "captures"])).
  rewrite list_fmap_id.
  split.
  - rewrite sorted_reverse_perm. apply NoDup_filter, NoDup_fst_map_to_list.
  - intros n. rewrite sorted_reverse_perm, list_elem_of_filter.
    rewrite elem_of_dom, list_elem_of_fmap.
    split; intros [He Hn]; (split; [done|]).
    + destruct Hn as ([n' x] & -> & Hx%elem_of_map_to_list). by exists x.
    + destruct Hn as [x Hx]. exists (n, x). split; [done|].
      by apply elem_of_map_to_list.
Qed.

Lemma plain_captures_root root :
  plain_captures root → ∃ w, lstat root [] = Some (KDir w).
Proof.
  intros [[w Ha] _]. destruct root as [|w' es|]; try done. by exists w'.
Qed.

Lemma lookup_nil budget root cur : lookup budget root cur [] = Some cur.
Proof. by destruct budget. Qed.

Lemma lookup_cons budget root cur name rest :
  lookup budget root cur (name :: rest) =
    match lstat root cur with
    | Some (KDir _) =>
        if bool_decide (name = "" ∨ name = ".")
        then lookup budget root cur rest
        else if bool_decide (name = "..")
        then lookup budget root (removelast cur) rest
        else
          match lstat root (cur ++ [name]) with
          | Some (KLink target) =>
              match budget with
              | O => None
              | S budget' =>
                  if bool_decide (target = "") then None
                  else
                    lookup budget' root (if isabs target then [] else cur)
                      (split "/" target ++ rest)
              end
          | Some _ => lookup budget root (cur ++ [name]) rest
          | None => None
          end
    | _ => None
    end.
Proof. by destruct budget. Qed.

(** One step of the kernel into an entry that is no link. *)
Lemma lookup_step budget root cur name rest w k :
  lstat root cur = Some (KDir w) →
  name ≠ "" → name ≠ "." → name ≠ ".." →
  lstat root (cur ++ [name]) = Some k → (∀ t, k ≠ KLink t) →
  lookup budget root cur (name :: rest)
  = lookup budget root (cur ++ [name]) rest.
Proof.
  intros Hc H1 H2 H3 Hk Hl. rewrite lookup_cons, Hc.
  rewrite (bool_decide_eq_false_2 (name = "" ∨ _)) by (by intros [?|?]).
  rewrite (bool_decide_eq_false_2 (name = "..")) by done.
  rewrite Hk. destruct k; try done. by destruct (Hl target).
Qed.

(** A capture directory that is a directory proper is where its path
    leads, for the kernel and for [resolve]. *)
Lemma namei_plain root :
  plain_captures root →
  namei root ["app"; "captures"] = Some ["app"; "captures"].
Proof.
  intros Hp. destruct (plain_captures_root root Hp) as [w0 H0].
  destruct Hp as [[w1 H1] [w2 H2]]. unfold namei.
  erewrite (lookup_step _ _ []); [|done..].
  erewrite (lookup_step _ _ ["app"]); [|done..].
  apply lookup_nil.
Qed.

Lemma walk_step follow root cur name rest :
  name ≠ "" → name ≠ "." → name ≠ ".." →
  readlink root (cur ++ [name]) = None →
  walk follow root cur (name :: rest) = walk follow root (cur ++ [name]) rest.
Proof.
  intros H1 H2 H3 Hl. simpl.
  rewrite (bool_decide_eq_false_2 (name = "" ∨ _)) by (by intros [?|?]).
  rewrite (bool_decide_eq_false_2 (name = "..")) by done.
  by rewrite Hl.
Qed.

Lemma readlink_dir root p w :
  lstat root p = Some (KDir w) → readlink root p = None.
Proof. unfold readlink. by intros ->. Qed.

Lemma resolve_plain root :
  plain_captures root →
  resolve root ["app"; "captures"] = Ok ["app"; "captures"].
Proof.
  intros [[w1 H1] [w2 H2]]. unfold resolve, realpath.
  change (existsb has_nul ["app"; "captures"]) with false. cbv iota.
  rewrite (walk_step _ _ []) by (done || by eapply readlink_dir).
  rewrite (walk_step _ _ ["app"]) by (done || by eapply readlink_dir).
  done.
Qed.

(** A file name proper is one component of a path. *)
Lemma parts_plain n : plain_name n → parts n = [n].
Proof.
  intros (Hs & Hne & Hd & _). unfold parts. rewrite split_no_slash by done.
  rewrite filter_cons_True by done. done.
Qed.

Lemma joinpath_plain base n : plain_name n → joinpath base n = base ++ [n].
Proof.
  intros Hn. unfold joinpath. rewrite parts_plain by done.
  destruct Hn as (Hs & Hne & _). destruct n as [|c n]; [done|]. simpl in *.
  by destruct (Ascii.eqb c "/").
Qed.

Lemma realpath_plain_file root n :
  plain_captures root → plain_name n →
  readlink root ["app"; "captures"; n] = None →
  realpath root ["app"; "captures"; n] = Some ["app"; "captures"; n].
Proof.
  intros [[w1 H1] [w2 H2]] (Hs & Hne & Hd & Hdd) Hl. unfold realpath.
  rewrite (walk_step _ _ []) by (done || by eapply readlink_dir).
  rewrite (walk_step _ _ ["app"]) by (done || by eapply readlink_dir).
  rewrite (walk_step _ _ ["app"; "captures"]) by done.
  done.
Qed.

Lemma resolve_plain_file root n :
  plain_captures root → plain_name n → has_nul n = false →
  readlink root ["app"; "captures"; n] = None →
  resolve root (joinpath ["app"; "captures"] n)
  = Ok ["app"; "captures"; n].
Proof.
  intros Hp Hn Hz Hl. rewrite joinpath_plain by done.
  unfold resolve. simpl existsb. rewrite Hz. simpl.
  by rewrite realpath_plain_file.
Qed.

Lemma string_length_app s1 s2 :
  String.length (s1 +:+ s2) = String.length s1 + String.length s2.
Proof. induction s1 as [|c s1 IH]; simpl; [done|]. by rewrite IH. Qed.

(** A name that ends in [.jpg] and is more than that has the extension
    [.jpg]. *)
Lemma suffix_endswith p n :
  endswith ".jpg" n = true → n ≠ ".jpg" → suffix (p ++ [n]) = ".jpg".
Proof.
  intros [pre ->]%endswith_spec Hne.
  assert (pre ≠ "") as Hpre by (by intros ->).
  unfold suffix. rewrite name_snoc.
  assert (rfind_dot (pre +:+ ".jpg") = Some (String.length pre)) as ->.
  { clear. induction pre as [|c pre IH]; [done|].
    simpl. change (String.append pre ".jpg") with (pre +:+ ".jpg").
    by rewrite IH. }
  rewrite string_length_app. simpl String.length.
  rewrite bool_decide_eq_true_2
    by (destruct pre; [done|simpl; lia]).
  replace (String.length pre + 4 - String.length pre) with 4 by lia.
  clear. induction pre as [|c pre IH]; [done|]. simpl. apply IH.
Qed.

(** A file in a directory that allows it can be removed. *)
Lemma unlink_file p : ∀ root c d,
  lstat root p = Some (KDir true) →
  lstat root (p ++ [c]) = Some (KFile d) →
  is_Some (unlink root (p ++ [c])).
Proof.
  induction p as [|a p IH]; intros root c d Hp Hf.
  - destruct root as [|w es|]; try done. simpl in *.
    injection Hp as ->. rewrite lstat_cons in Hf.
    destruct (es !! c) as [[d'|w' es'|t]|]; try done.
  - destruct root as [|w es|]; try done.
    rewrite lstat_cons in Hp.
    change ((a :: p) ++ [c]) with (a :: (p ++ [c])) in *.
    rewrite lstat_cons in Hf.
    simpl. destruct (es !! a) as [n'|]; [|done].
    destruct (IH n' c d Hp Hf) as [n'' Hn'']. rewrite Hn''.
    by destruct (p ++ [c]) eqn:Hpc; [destruct p|].
Qed.

(** In a capture directory that is a directory proper, a regular file
    with a file name proper that ends in [.jpg], and is more than that,
    is accepted under its name. *)
Lemma accepted_plain_file root n d :
  plain_captures root → plain_name n → has_nul n = false →
  endswith ".jpg" n = true → n ≠ ".jpg" →
  lstat root ["app"; "captures"; n] = Some (KFile d) →
  accepted root ["app"; "captures"] n = Some ["app"; "captures"; n].
Proof.
  intros Hp Hn Hz He Hne Hf. unfold accepted.
  rewrite resolve_plain_file by (done || (unfold readlink; by rewrite Hf)).
  unfold is_relative_to, exists_.
  rewrite bool_decide_eq_true_2 by (by exists [n]).
  rewrite bool_decide_eq_true_2 by (by rewrite Hf).
  by rewrite bool_decide_eq_true_2
    by apply (suffix_endswith ["app"; "captures"] n He Hne).
Qed.

Lemma listed_plain (e : Env) l n :
  plain_captures (root e) → list_captures e = (e, Ok l) →
  n ∈ l ↔ endswith ".jpg" n = true
          ∧ is_Some (lstat (root e) ["app"; "captures"; n]).
Proof.
  intros Hp Hl. destruct (list_captures_spec e) as (l' & Hl' & _ & _ & Hn).
  assert (l' = l) as -> by congruence.
  rewrite Hn, elem_of_entries, (namei_plain _ Hp).
  destruct Hp as [_ [w Hw]]. split; intros [He Hx]; (split; [done|]).
  - by destruct Hx as (d & w' & [= <-] & _ & ?).
  - by exists ["app"; "captures"], w.
Qed.


Lemma elem_of_removed root cd files q :
  q ∈ removed root cd files ↔
    ∃ f, f ∈ files ∧ deletable root cd f = Some q.
Proof.
  unfold removed. rewrite elem_of_list_to_set, list_elem_of_omap. done.
Qed.

Lemma removed_suffix root cd files q :
  q ∈ removed root cd files → suffix q = ".jpg".
Proof.
  intros (f & _ & Hd)%elem_of_removed.
  apply deletable_Some in Hd as [Ha _].
  by apply accepted_Some in Ha as (_ & _ & ? & _).
Qed.

(** [batch_delete] on names that resolve, with what it leaves. *)
Lemma batch_delete_spec (e : Env) files cd :
  files ≠ [] →
  resolve (root e) (parts "/app/captures") = Ok cd →
  Forall (resolvable (root e) cd) files →
  ∃ e',
    batch_delete {| Microscope.files := Some files |} e =
      (e', Ok (jsonify
                 [("deleted", JNum (size (removed (root e) cd files)));
                  ("requested", JNum (length files))] 200))
    ∧ ∀ q, lstat (root e') q =
           if bool_decide (q ∈ removed (root e) cd files) then None
           else lstat (root e) q.
Proof.
  intros Hne Hcd Hres. unfold batch_delete. simpl.
  rewrite bool_decide_eq_false_2 by done.
  unfold bind at 1. unfold Path_resolve at 1. unfold bind, log, modify. simpl.
  rewrite Hcd.
  match goal with
  | |- context [batch_delete_loop cd files 0 ?e1] =>
      destruct (batch_delete_loop_spec cd files e1 0) as (e' & He & _ & Hq)
  end; [done|].
  simpl in He, Hq. rewrite He. by exists e'.
Qed.

Lemma batch_download_spec (e : Env) files cd :
  files ≠ [] →
  resolve (root e) (parts "/app/captures") = Ok cd →
  Forall (resolvable (root e) cd) files →
  ∃ e',
    batch_download {| Microscope.files := Some files |} e =
      (e', Ok {| status := 200; mimetype := "application/zip";
                 headers := [("Content-Disposition",
                              "attachment; filename=captures.zip")];
                 payload := Archive (omap (member (root e) cd) files) |}).
Proof.
  intros Hne Hcd Hres. unfold batch_download. simpl.
  rewrite bool_decide_eq_false_2 by done.
  unfold bind at 1. unfold Path_resolve at 1. unfold bind, log, modify. simpl.
  rewrite Hcd.
  match goal with
  | |- context [batch_download_loop cd files [] ?e1] =>
      destruct (batch_download_loop_spec cd files e1 [])
        as (e' & He & _)
  end; [done|].
  simpl in He. rewrite He. by exists e'.
Qed.

(** Removing captures leaves the capture directory a directory. *)
Lemma plain_captures_removed root root' cd files :
  plain_captures root →
  (∀ q, lstat root' q =
        if bool_decide (q ∈ removed root cd files) then None
        else lstat root q) →
  plain_captures root'.
Proof.
  intros [[w1 H1] [w2 H2]] Hq. split.
  - exists w1. rewrite Hq, bool_decide_eq_false_2; [done|].
    by intros ?%removed_suffix.
  - exists w2. rewrite Hq, bool_decide_eq_false_2; [done|].
    by intros ?%removed_suffix.
Qed.


(** X14.  Every regular file that the listing shows can be viewed, exported
    and deleted under the name listed, when that name is a file name
    proper other than [.jpg] itself and the capture directory is a
    directory proper: the view sends the file, the export of the name
    holds one member with that name and the bytes of the file, and, the
    directory allowing it, the delete of the name counts one, removes the
    file and takes the name off the listing. *)
Theorem listed_file_is_served (e : Env) l n d :
  plain_captures (root e) →
  list_captures e = (e, Ok l) →
  n ∈ l →
  plain_name n → has_nul n = false → n ≠ ".jpg" →
  lstat (root e) ["app"; "captures"; n] = Some (KFile d) →
  (∃ e1,
     get_capture n e =
       (e1, Ok {| status := 200; mimetype := "image/jpeg"; headers := [];
                  payload := SendFromDirectory "/app/captures" n |}))
  ∧ (∃ e2,
       batch_download {| Microscope.files := Some [n] |} e =
         (e2, Ok {| status := 200; mimetype := "application/zip";
                    headers := [("Content-Disposition",
                                 "attachment; filename=captures.zip")];
                    payload :=
                      Archive [{| Zipfile.filename := n;
                                  Zipfile.contents := d |}] |}))
  ∧ (lstat (root e) ["app"; "captures"] = Some (KDir true) →
     ∃ e3 l',
       batch_delete {| Microscope.files := Some [n] |} e =
         (e3, Ok (jsonify [("deleted", JNum 1); ("requested", JNum 1)] 200))
       ∧ lstat (root e3) ["app"; "captures"; n] = None
       ∧ list_captures e3 = (e3, Ok l') ∧ n ∉ l').
Proof.
  intros Hp Hl Hn Hpl Hz Hne Hf.
  pose proof (proj1 (listed_plain e l n Hp Hl) Hn) as [Hend _].
  pose proof (accepted_plain_file _ n d Hp Hpl Hz Hend Hne Hf) as Hacc.
  pose proof (resolve_plain _ Hp) as Hcd.
  assert (readlink (root e) ["app"; "captures"; n] = None) as Hrl
    by (unfold readlink; by rewrite Hf).
  pose proof (resolve_plain_file _ n Hp Hpl Hz Hrl) as Hres.
  assert (Forall (resolvable (root e) ["app"; "captures"]) [n]) as Hall.
  { constructor; [by eexists|constructor]. }
  split; [|split].
  - unfold get_capture, try_except, Path_resolve, Path_exists, bind, log,
      modify, ret. simpl.
    change (parts "/app/captures") with ["app"; "captures"] in *.
    rewrite Hres. simpl. rewrite Hcd.
    unfold is_relative_to, exists_.
    rewrite bool_decide_eq_true_2 by (by exists [n]). simpl.
    rewrite bool_decide_eq_true_2 by (by rewrite Hf).
    rewrite bool_decide_eq_true_2
      by apply (suffix_endswith ["app"; "captures"] n Hend Hne).
    simpl. by eexists.
  - destruct (batch_download_spec e [n] ["app"; "captures"]) as (e2 & ->);
      [done..|].
    exists e2. simpl. unfold member. rewrite Hacc, Hf.
    by rewrite arcname_of_plain.
  - intros Hw.
    destruct (unlink_file ["app"; "captures"] (root e) n d Hw Hf)
      as [root' Hu].
    assert (removed (root e) ["app"; "captures"] [n]
            = {[ ["app"; "captures"; n] ]}) as Hrem.
    { rewrite removed_cons, removed_nil. unfold deletable.
      rewrite Hacc.
      change (["app"; "captures"] ++ [n]) with ["app"; "captures"; n] in Hu.
      rewrite Hu. apply (right_id_L ∅ (∪)). }
    destruct (batch_delete_spec e [n] ["app"; "captures"])
      as (e3 & He3 & Hq); [done..|].
    rewrite Hrem in He3, Hq.
    rewrite (size_singleton (C:=gset (list string))) in He3.
    destruct (list_captures_spec e3) as (l' & Hl' & _).
    exists e3, l'. split; [exact He3|].
    assert (lstat (root e3) ["app"; "captures"; n] = None) as Hgone.
    { rewrite Hq.
      by rewrite bool_decide_eq_true_2 by (by apply elem_of_singleton). }
    split; [done|]. split; [done|].
    assert (plain_captures (root e3)) as Hp3.
    { eapply (plain_captures_removed _ _ ["app"; "captures"] [n]); [done|].
      by rewrite Hrem. }
    rewrite (listed_plain e3 l' n Hp3 Hl'), Hgone.
    by intros [_ []].
Qed.

(** Writing a file into a directory that allows it, where no directory
    or link is in the way, changes that file and nothing else. *)
Lemma store_file p : ∀ root c d,
  lstat root p = Some (KDir true) →
  (lstat root (p ++ [c]) = None
   ∨ ∃ d0, lstat root (p ++ [c]) = Some (KFile d0)) →
  ∃ root',
    store root (p ++ [c]) d = Some root'
    ∧ ∀ q, lstat root' q =
           if decide (q = p ++ [c]) then Some (KFile d) else lstat root q.
Proof.
  induction p as [|a p IH]; intros root c d Hp Hf.
  - destruct root as [|w es|]; try done. simpl in Hp. injection Hp as ->.
    change ([] ++ [c]) with [c] in *. rewrite !lstat_cons in Hf.
    exists (Dir true (<[c := File d]> es)). split.
    + simpl. destruct (es !! c) as [[d0|w' es'|t]|]; try done;
        by destruct Hf as [?|[? ?]].
    + intros [|c' q]; [done|]. rewrite !lstat_cons.
      destruct (decide (c' = c)) as [->|Hne].
      * rewrite lookup_insert_eq.
        destruct q as [|x q]; [by rewrite decide_True|].
        rewrite decide_False by done.
        destruct (es !! c) as [[d0|w' es'|t]|]; try done;
          by destruct Hf as [?|[? ?]].
      * rewrite lookup_insert_ne by done.
        by rewrite decide_False by congruence.
  - destruct root as [|w es|]; try done.
    rewrite lstat_cons in Hp.
    change ((a :: p) ++ [c]) with (a :: (p ++ [c])) in *.
    rewrite lstat_cons in Hf.
    destruct (es !! a) as [n'|] eqn:Ha; [|done].
    destruct (IH n' c d Hp Hf) as (n'' & Hs & Hq).
    exists (Dir w (<[a := n'']> es)). split.
    + simpl. rewrite Ha, Hs. by destruct (p ++ [c]) eqn:Hpc; [destruct p|].
    + intros [|c' q]; [done|]. rewrite !lstat_cons.
      destruct (decide (c' = a)) as [->|Hne].
      * rewrite lookup_insert_eq, Ha, Hq.
        destruct (decide (q = p ++ [c])) as [->|Hq'].
        -- by rewrite decide_True.
        -- by rewrite decide_False by congruence.
      * rewrite lookup_insert_ne by done.
        by rewrite decide_False by congruence.
Qed.

Lemma has_slash_app s1 s2 :
  has_slash (s1 +:+ s2) = has_slash s1 || has_slash s2.
Proof.
  induction s1 as [|c s1 IH]; simpl; [done|].
  change (String.append s1 s2) with (s1 +:+ s2).
  by rewrite IH, orb_assoc.
Qed.

(** X15.  A capture is listed: when [read_frame] gives a frame that the
    encoder accepts, the capture directory is a directory proper that
    allows writing, the time stamp has no slash in it and no directory or
    link has the name of the capture, then [capture_image] leaves the
    encoded frame in the file of that name, changes no other path, and
    the listing afterwards is the one before with the name added. *)
Theorem captured_image_is_listed (s : CameraService) (e : Env) st f buffer
    l :
  capture_dir s = ["app"; "captures"] →
  read_frame (s, e) = (st, Ok (Some f)) →
  imencode_jpg f 95 = Some buffer →
  plain_captures (root e) →
  lstat (root e) ["app"; "captures"] = Some (KDir true) →
  has_slash (clock e) = false →
  let n := "capture_" +:+ clock e +:+ ".jpg" in
  (lstat (root e) ["app"; "captures"; n] = None
   ∨ ∃ d0, lstat (root e) ["app"; "captures"; n] = Some (KFile d0)) →
  list_captures e = (e, Ok l) →
  ∃ e' l',
    capture_image (s, e) = ((s, e'), Ok (Some ["app"; "captures"; n]))
    ∧ lstat (root e') ["app"; "captures"; n] = Some (KFile buffer)
    ∧ (∀ q, q ≠ ["app"; "captures"; n] →
            lstat (root e') q = lstat (root e) q)
    ∧ list_captures e' = (e', Ok l')
    ∧ ∀ m, m ∈ l' ↔ m = n ∨ m ∈ l.
Proof.
  intros Hdir Hrf Henc Hp Hw Hck n Hfree Hl.
  assert (plain_name n) as Hpl.
  { split; [|done]. subst n. rewrite !has_slash_app, Hck. done. }
  assert (endswith ".jpg" n = true) as Hend.
  { apply endswith_spec. by exists ("capture_" +:+ clock e). }
  destruct (microscope_read_frame_feed s e) as (fd & fo & Hrf').
  assert (st = (s, set_feed fd e) ∧ fo = Some f) as [-> ->]
    by (split; congruence).
  assert (readlink (root e) ["app"; "captures"; n] = None) as Hrl.
  { unfold readlink. by destruct Hfree as [->|[d0 ->]]. }
  destruct (store_file ["app"; "captures"] (root e) n buffer Hw Hfree)
    as (root' & Hst & Hq).
  change (["app"; "captures"] ++ [n]) with ["app"; "captures"; n] in *.
  assert (capture_image (s, e)
          = ((s, set_root root'
                   (log (Imwrite ["app"; "captures"; n])
                      (set_feed fd e)).1),
             Ok (Some ["app"; "captures"; n]))) as Hcap.
  { unfold capture_image. erewrite bind_ok by exact Hrf.
    unfold bind, self, world, imwrite, bind, log, modify, ret.
    cbn [fst snd]. simpl clock. simpl root. rewrite Hdir.
    fold n. rewrite (joinpath_plain _ n Hpl).
    change (["app"; "captures"] ++ [n]) with ["app"; "captures"; n].
    rewrite Henc. unfold open_write.
    rewrite (realpath_plain_file _ n Hp Hpl Hrl), Hst. done. }
  match type of Hcap with _ = ((_, ?e1), _) => set (e' := e1) in * end.
  assert (root e' = root') as Hroot by done.
  assert (plain_captures (root e')) as Hp'.
  { rewrite Hroot. destruct Hp as [[w1 H1] _]. split.
    - exists w1. by rewrite Hq, decide_False.
    - exists true. by rewrite Hq, decide_False. }
  destruct (list_captures_spec e') as (l' & Hl' & _).
  exists e', l'. split; [done|]. rewrite Hroot.
  split; [by rewrite Hq, decide_True|].
  split; [by intros q Hne; rewrite Hq, decide_False|].
  split; [done|]. intros m.
  rewrite (listed_plain e' l' m Hp' Hl'), (listed_plain e l m Hp Hl).
  rewrite Hroot, Hq.
  destruct (decide (m = n)) as [->|Hne].
  - rewrite decide_True by done. split; [by left|]. intros _. by split.
  - rewrite decide_False by congruence. split; [by right|].
    by intros [?|?].
Qed.





End ListingExtras.

Section BatchErrors.
Import Posix Pathlib Flask Spec Microscope.
Context `{OpenCV}.



End BatchErrors.

(* ===================================================================== *)
(** ** The further properties on the bench machines *)
(* ===================================================================== *)

Section ExtraRuns.
Import Posix Pathlib Flask Spec.

Lemma plain_captures_bench : plain_captures bench_tree.
Proof. split; eexists; vm_compute; reflexivity. Qed.

Lemma microscope_stream_follows_the_device_run :
  Microscope.camera open_service = Some 0
  ∧ Microscope.handles (Microscope.video open_env) !! 0 = Some true
  ∧ @Microscope.generate_stream bench_cv (open_service, open_env) =
      ((open_service,
        Microscope.set_feed
          (answers_left (Microscope.feed (Microscope.video open_env)))
          open_env),
       Ok (Microscope.part <$>
             omap (fun f => imencode_jpg f 85)
               (frames_read (Microscope.feed (Microscope.video open_env))))).
Proof.
  assert (Microscope.camera open_service = Some 0) as H1 by reflexivity.
  assert (Microscope.handles (Microscope.video open_env) !! 0 = Some true)
    as H2 by reflexivity.
  split; [exact H1|]. split; [exact H2|].
  exact (@microscope_stream_follows_the_device bench_cv open_service
           open_env 0 H1 H2).
Defined.

(** All five frames of the bench machine are streamed, each as a part. *)
Example microscope_stream_of_five_frames :
  ∃ st chunks,
    @Microscope.generate_stream bench_cv (open_service, open_env)
    = (st, Ok chunks)
    ∧ length chunks = 5
    ∧ Microscope.feed (Microscope.video (snd st)) = [].
Proof. eexists _, _. split; [vm_compute; reflexivity|]. by split. Qed.

Lemma csi_stream_is_raw_run :
  let s := CSI.set_process (Some 0) csi_service in
  let e := CSI.set_table [bench_vid] csi_env in
  CSI.process s = Some 0
  ∧ CSI.table e !! 0 = Some bench_vid
  ∧ ∃ e',
      CSI.generate_stream (s, e)
      = ((s, e'), Ok (chunks_read (CSI.stdout bench_vid))).
Proof.
  intros s e.
  assert (CSI.process s = Some 0) as H1 by reflexivity.
  assert (CSI.table e !! 0 = Some bench_vid) as H2 by reflexivity.
  split; [exact H1|]. split; [exact H2|].
  exact (csi_stream_is_raw s e 0 bench_vid H1 H2).
Defined.

Lemma serves_bench (p0 : @Microscope.Process bench_cv) :
  rtc (serves bench_int "<html>" bench_credentials) p0 (served_process p0).
Proof.
  eapply rtc_l; [apply serves_request|].
  eapply rtc_l; [apply serves_request|]. apply rtc_refl.
Qed.

Lemma health_is_decided_at_start_up_run :
  let p0 := (Microscope.main_camera bench_int (boot bench_env)).1 in
  let p := served_process p0 in
  Microscope.main_camera bench_int (boot bench_env) = (p0, Ok tt)
  ∧ rtc (serves bench_int "<html>" bench_credentials) p0 p
  ∧ Microscope.health bench_int p =
      (p, Ok (jsonify [("status", JStr "healthy"); ("camera", JStr "ok")]
                200))
  ∧ Microscope.status_ bench_int p =
      (p, Ok (jsonify [("camera_ready", JBool true)] 200)).
Proof.
  intros p0 p.
  assert (Microscope.main_camera bench_int (boot bench_env) = (p0, Ok tt))
    as H1 by (vm_compute; reflexivity).
  pose proof (serves_bench p0) as H2.
  split; [exact H1|]. split; [exact H2|].
  exact (@health_is_decided_at_start_up bench_cv bench_int "<html>"
           bench_credentials bench_env p0 p H1 H2).
Defined.

Lemma closed_device_is_never_reopened_run :
  let e := Microscope.env dead_process in
  let p0 := (Microscope.main_camera bench_int (boot e)).1 in
  let p := served_process p0 in
  Microscope.main_camera bench_int (boot e) = (p0, Ok tt)
  ∧ Microscope.openable (Microscope.video e) = false
  ∧ rtc (serves bench_int "<html>" bench_credentials) p0 p
  ∧ Microscope.capture bench_int p =
      (p, Ok (jsonify [("status", JStr "error");
                       ("message", JStr "Capture failed")] 500))
  ∧ Microscope.stream bench_int p =
      (p, Ok {| status := 200;
                mimetype := "multipart/x-mixed-replace; boundary=frame";
                headers := [];
                payload := Chunks [] |})
  ∧ Microscope.handles (Microscope.video (Microscope.env p))
    = Microscope.handles (Microscope.video e) ++ [false].
Proof.
  intros e p0 p.
  assert (Microscope.main_camera bench_int (boot e) = (p0, Ok tt))
    as H1 by (vm_compute; reflexivity).
  assert (Microscope.openable (Microscope.video e) = false) as H2
    by reflexivity.
  pose proof (serves_bench p0) as H3.
  split; [exact H1|]. split; [exact H2|]. split; [exact H3|].
  exact (@closed_device_is_never_reopened bench_cv bench_int "<html>"
           bench_credentials e p0 p H1 H2 H3).
Defined.

Lemma app_requires_credentials_run :
  let r := Microscope.BatchDelete {| Microscope.files := Some ["a.jpg"] |} in
  let accepted_authorization :=
    Some {| Auth.username := Some (Auth.USERNAME bench_credentials);
            Auth.password := Some (Auth.PASSWORD bench_credentials) |} in
  Microscope.protected r = true
  ∧ (∀ authorization,
       (authorization = accepted_authorization →
          Microscope.app bench_int "<html>" bench_credentials authorization
            r bench_process =
            (let* a := Microscope.view bench_int "<html>" r in ret (inr a))
              bench_process)
       ∧ (authorization ≠ accepted_authorization →
            Microscope.app bench_int "<html>" bench_credentials
              authorization r bench_process =
              (bench_process,
               Ok (inl {| status := 401; mimetype := "text/html";
                          headers :=
                            [("WWW-Authenticate",
                              "Basic realm="
                              +:+ String Auth.DQUOTE "Microscope"
                              +:+ String Auth.DQUOTE "")];
                          payload := Text "Authentication required" |})))).
Proof.
  intros r acc.
  assert (Microscope.protected r = true) as H1 by reflexivity.
  split; [exact H1|]. intros authorization.
  exact (@app_requires_credentials bench_cv bench_int "<html>"
           bench_credentials authorization r bench_process H1).
Defined.

(** Without credentials nothing is deleted, and the wrong password is
    no better. *)
Example batch_delete_without_credentials :
  ∀ authorization,
    authorization = None
    ∨ authorization = Some {| Auth.username := Some "admin";
                              Auth.password := Some "guess" |} →
    ∃ response,
      Microscope.app bench_int "<html>" bench_credentials authorization
        (Microscope.BatchDelete {| Microscope.files := Some ["a.jpg"] |})
        bench_process = (bench_process, Ok (inl response))
      ∧ status response = 401.
Proof. intros ? [->| ->]; eexists; split; reflexivity. Qed.


(** On the bench machine: [a.jpg] and [b.jpg] are listed, [notes.txt]
    is not; after the delete of [a.jpg] the listing is [b.jpg]. *)
Example listing_before_and_after_delete :
  Microscope.list_captures bench_env = (bench_env, Ok ["b.jpg"; "a.jpg"])
  ∧ ∃ e' response,
      Microscope.batch_delete {| Microscope.files := Some ["a.jpg"] |}
        bench_env = (e', Ok response)
      ∧ Microscope.list_captures e' = (e', Ok ["b.jpg"]).
Proof.
  split; [vm_compute; reflexivity|].
  eexists _, _. split; vm_compute; reflexivity.
Qed.

Lemma listed_file_is_served_run :
  let e := bench_env in
  let l := ["b.jpg"; "a.jpg"] in
  let n := "a.jpg" in
  let d := "AAAA" in
  plain_captures (Microscope.root e)
  ∧ Microscope.list_captures e = (e, Ok l)
  ∧ n ∈ l
  ∧ plain_name n ∧ has_nul n = false ∧ n ≠ ".jpg"
  ∧ lstat (Microscope.root e) ["app"; "captures"; n] = Some (KFile d)
  ∧ (∃ e1,
       Microscope.get_capture n e =
         (e1, Ok {| status := 200; mimetype := "image/jpeg"; headers := [];
                    payload := SendFromDirectory "/app/captures" n |}))
  ∧ (∃ e2,
       Microscope.batch_download {| Microscope.files := Some [n] |} e =
         (e2, Ok {| status := 200; mimetype := "application/zip";
                    headers := [("Content-Disposition",
                                 "attachment; filename=captures.zip")];
                    payload :=
                      Archive [{| Zipfile.filename := n;
                                  Zipfile.contents := d |}] |}))
  ∧ (lstat (Microscope.root e) ["app"; "captures"] = Some (KDir true) →
     ∃ e3 l',
       Microscope.batch_delete {| Microscope.files := Some [n] |} e =
         (e3, Ok (jsonify [("deleted", JNum 1); ("requested", JNum 1)] 200))
       ∧ lstat (Microscope.root e3) ["app"; "captures"; n] = None
       ∧ Microscope.list_captures e3 = (e3, Ok l') ∧ n ∉ l').
Proof.
  intros e l n d.
  pose proof plain_captures_bench as H1.
  assert (Microscope.list_captures e = (e, Ok l)) as H2
    by (vm_compute; reflexivity).
  assert (n ∈ l) as H3 by (apply list_elem_of_further, list_elem_of_here).
  assert (plain_name n) as H4 by (by repeat split).
  assert (has_nul n = false) as H5 by reflexivity.
  assert (n ≠ ".jpg") as H6 by done.
  assert (lstat (Microscope.root e) ["app"; "captures"; n] = Some (KFile d))
    as H7 by (vm_compute; reflexivity).
  split; [exact H1|]. split; [exact H2|]. split; [exact H3|].
  split; [exact H4|]. split; [exact H5|]. split; [exact H6|].
  split; [exact H7|].
  exact (@listed_file_is_served bench_cv e l n d H1 H2 H3 H4 H5 H6 H7).
Defined.

(** A file named [.jpg] and no more is listed, and refused by the view:
    its name has no extension. *)
Example dot_jpg_is_listed_and_refused :
  let e :=
    Microscope.set_root
      (Dir true
         {[ "app" :=
              Dir true
                {[ "captures" := Dir true {[ ".jpg" := File "JFIF" ]} ]} ]})
      bench_env in
  Microscope.list_captures e = (e, Ok [".jpg"])
  ∧ ∃ e1,
      Microscope.get_capture ".jpg" e =
        (e1, Ok (jsonify [("error", JStr "File not found")] 404)).
Proof.
  split; [vm_compute; reflexivity|]. eexists. vm_compute. reflexivity.
Qed.

Lemma captured_image_is_listed_run :
  let s := open_service in
  let e := open_env in
  let f : @Frame bench_cv := "f0" in
  let st := (s, Microscope.set_feed
                  (tail (Microscope.feed (Microscope.video e))) e) in
  let l := ["b.jpg"; "a.jpg"] in
  let n := "capture_" +:+ Microscope.clock e +:+ ".jpg" in
  Microscope.capture_dir s = ["app"; "captures"]
  ∧ Microscope.read_frame (s, e) = (st, Ok (Some f))
  ∧ imencode_jpg f 95 = Some "JFIFf0"
  ∧ plain_captures (Microscope.root e)
  ∧ lstat (Microscope.root e) ["app"; "captures"] = Some (KDir true)
  ∧ has_slash (Microscope.clock e) = false
  ∧ (lstat (Microscope.root e) ["app"; "captures"; n] = None
     ∨ ∃ d0, lstat (Microscope.root e) ["app"; "captures"; n]
             = Some (KFile d0))
  ∧ Microscope.list_captures e = (e, Ok l)
  ∧ ∃ e' l',
      Microscope.capture_image (s, e)
      = ((s, e'), Ok (Some ["app"; "captures"; n]))
      ∧ lstat (Microscope.root e') ["app"; "captures"; n]
        = Some (KFile "JFIFf0")
      ∧ (∀ q, q ≠ ["app"; "captures"; n] →
              lstat (Microscope.root e') q = lstat (Microscope.root e) q)
      ∧ Microscope.list_captures e' = (e', Ok l')
      ∧ ∀ m, m ∈ l' ↔ m = n ∨ m ∈ l.
Proof.
  intros s e f st l n.
  assert (Microscope.capture_dir s = ["app"; "captures"]) as H1
    by reflexivity.
  assert (Microscope.read_frame (s, e) = (st, Ok (Some f))) as H2
    by reflexivity.
  assert (imencode_jpg f 95 = Some "JFIFf0") as H3 by reflexivity.
  pose proof plain_captures_bench as H4.
  assert (lstat (Microscope.root e) ["app"; "captures"] = Some (KDir true))
    as H5 by (vm_compute; reflexivity).
  assert (has_slash (Microscope.clock e) = false) as H6 by reflexivity.
  assert (lstat (Microscope.root e) ["app"; "captures"; n] = None
          ∨ ∃ d0, lstat (Microscope.root e) ["app"; "captures"; n]
                  = Some (KFile d0)) as H7
    by (left; vm_compute; reflexivity).
  assert (Microscope.list_captures e = (e, Ok l)) as H8
    by (vm_compute; reflexivity).
  split; [exact H1|]. split; [exact H2|]. split; [exact H3|].
  split; [exact H4|]. split; [exact H5|]. split; [exact H6|].
  split; [exact H7|]. split; [exact H8|].
  exact (@captured_image_is_listed bench_cv s e st f "JFIFf0" l
           H1 H2 H3 H4 H5 H6 H7 H8).
Defined.

(** On the bench machine the capture heads the listing. *)
Example capture_heads_the_listing :
  ∃ st e',
    @Microscope.capture_image bench_cv (open_service, open_env)
    = (st, Ok (Some ["app"; "captures"; "capture_20240131_120000.jpg"]))
    ∧ Microscope.list_captures (snd st) =
        (e', Ok ["capture_20240131_120000.jpg"; "b.jpg"; "a.jpg"]).
Proof. eexists _, _. split; vm_compute; reflexivity. Qed.



(** The start and the stop of the CSI service on the bench machine: the
    child is in the table, halted. *)
Example csi_start_then_stop :
  ∃ st st',
    CSI.start (csi_service, csi_env) = (st, Ok true)
    ∧ CSI.stop st = (st', Ok tt)
    ∧ CSI.table (snd st') = [CSI.halt bench_vid].
Proof. eexists _, _. repeat split. Qed.

End ExtraRuns.
